(** * Receipt extraction and classification core

    A shallow embedding of the text-processing core of the receipt tracker:
    [backend/app/receipt_processor.py] (scan path),
    [backend/app/email_parser.py] (email path) and
    [backend/app/categorizer.py] (category classifier), together with the
    item loop of [save_receipt_to_db] in [backend/app/__init__.py].

    Modelling conventions.
    - A Python [str] is a [list ascii]; the model covers ASCII text.  The
      character classes [\d], [\s], [\w] and the case mappings are those of
      Python restricted to code points below 128; a character at or above
      128 belongs to no class and has no case.
    - Python's [re] module is modelled by a backtracking matcher that
      enumerates the successful match states of a pattern in the priority
      order in which the engine explores them; the match that [re.search]
      reports is the head of that enumeration at the leftmost position that
      has one.
    - A Python [float] is modelled by the exact rational it denotes (kept in
      lowest terms); binary rounding and overflow are outside the model.
    - Exceptions are explicit: fallible code lives in the [result] monad.
    - [datetime.now()] is an explicit parameter.
    - A property whose truth for the program depends on one of the first
      or third convention states the range as a hypothesis: [ascii_only]
      for text, [plain_numbers] (no number of more than 13 digits) for
      floats, and compares computed amounts with [close], a relative
      rounding tolerance. *)

From Stdlib Require Import Ascii String Bool Arith ZArith QArith Qreduction Qabs Lia List.
Import ListNotations.

Set Warnings "-abstract-large-number".

Local Open Scope nat_scope.
Local Open Scope list_scope.

(** ** Characters and Python string primitives *)

Definition text := list ascii.

Definition str (s : string) : text := list_ascii_of_string s.

Definition code (c : ascii) : nat := nat_of_ascii c.

Definition in_range (lo hi : nat) (c : ascii) : bool :=
  (lo <=? code c) && (code c <=? hi).

Definition is_digit (c : ascii) : bool := in_range 48 57 c.
Definition is_upper (c : ascii) : bool := in_range 65 90 c.
Definition is_lower (c : ascii) : bool := in_range 97 122 c.
Definition is_alpha (c : ascii) : bool := is_upper c || is_lower c.

(** [str.isspace] on ASCII: TAB..CR, FS..US and the space. *)
Definition is_space (c : ascii) : bool := in_range 9 13 c || in_range 28 32 c.

(** [\w]: alphanumerics and the underscore. *)
Definition is_word (c : ascii) : bool :=
  is_alpha c || is_digit c || (code c =? 95).

Definition to_lower (c : ascii) : ascii :=
  if is_upper c then ascii_of_nat (code c + 32) else c.

Definition to_upper (c : ascii) : ascii :=
  if is_lower c then ascii_of_nat (code c - 32) else c.

Definition newline : ascii := ascii_of_nat 10.

(** [s.lower()] *)
Definition lower (s : text) : text := map to_lower s.

Fixpoint drop_while (p : ascii -> bool) (s : text) : text :=
  match s with
  | [] => []
  | c :: s' => if p c then drop_while p s' else s
  end.

Fixpoint take_while (p : ascii -> bool) (s : text) : text :=
  match s with
  | [] => []
  | c :: s' => if p c then c :: take_while p s' else []
  end.

Definition lstrip (s : text) : text := drop_while is_space s.
Definition rstrip (s : text) : text := rev (drop_while is_space (rev s)).

(** [s.strip()] *)
Definition strip (s : text) : text := rstrip (lstrip s).

(** [s.title()]: a letter is upper-cased when the previous character is not
    cased and lower-cased when it is. *)
Fixpoint title_from (prev_cased : bool) (s : text) : text :=
  match s with
  | [] => []
  | c :: s' =>
      (if prev_cased then to_lower c else to_upper c)
        :: title_from (is_alpha c) s'
  end.

Definition title (s : text) : text := title_from false s.

(** [s.split(sep)] for a one-character separator. *)
Fixpoint split_on (sep : ascii) (s : text) : list text :=
  match s with
  | [] => [[]]
  | c :: s' =>
      if Ascii.eqb c sep then [] :: split_on sep s'
      else match split_on sep s' with
           | [] => [[c]]
           | l :: ls => (c :: l) :: ls
           end
  end.

Fixpoint starts_with (p s : text) : bool :=
  match p, s with
  | [], _ => true
  | _ :: _, [] => false
  | a :: p', c :: s' => Ascii.eqb a c && starts_with p' s'
  end.

(** [a == b] *)
Fixpoint text_eqb (a b : text) : bool :=
  match a, b with
  | [], [] => true
  | x :: a', y :: b' => Ascii.eqb x y && text_eqb a' b'
  | _, _ => false
  end.

(** [sub in s] *)
Fixpoint contains (sub s : text) : bool :=
  starts_with sub s ||
  match s with
  | [] => false
  | _ :: s' => contains sub s'
  end.

(** ** Exceptions *)

Inductive exn := ValueError | TypeError | AttributeError | ZeroDivisionError.

Inductive result (A : Type) :=
| Ok (a : A)
| Raise (e : exn).
Arguments Ok {A} a.
Arguments Raise {A} e.

Definition bind {A B} (m : result A) (f : A -> result B) : result B :=
  match m with
  | Ok a => f a
  | Raise e => Raise e
  end.

Notation "x <- m ;; k" := (bind m (fun x => k))
  (at level 61, m at next level, right associativity).

(** ** The regular-expression engine *)

Module Re.

(** A match state: the text already passed (most recent character first),
    the text still ahead, and the groups captured so far. *)
Record mstate := MState {
  before : text;
  after : text;
  caps : list (nat * text)
}.

(** Patterns.  Every quantifier of the source patterns applies to a single
    character class, hence [Rep]; [r?] on a group is [Alt r Eps]. *)
Inductive regex :=
| Eps
| Cls (p : ascii -> bool)
| Seq (r1 r2 : regex)
| Alt (r1 r2 : regex)
| Rep (greedy : bool) (lo : nat) (hi : option nat) (p : ascii -> bool)
| Grp (n : nat) (r : regex)
| Bol
| Eol
| Wordb.

Fixpoint advance (n : nat) (st : mstate) : mstate :=
  match n with
  | 0 => st
  | S n' =>
      match after st with
      | [] => st
      | c :: s' => advance n' (MState (c :: before st) s' (caps st))
      end
  end.

Fixpoint run_length (p : ascii -> bool) (s : text) : nat :=
  match s with
  | [] => 0
  | c :: s' => if p c then S (run_length p s') else 0
  end.

(** The repetition counts a quantifier may take on a run of [run] matching
    characters, in increasing order. *)
Definition counts (lo : nat) (hi : option nat) (run : nat) : list nat :=
  let top := match hi with Some h => Nat.min h run | None => run end in
  seq lo (S top - lo).

(** Text consumed between an entry state and a later state. *)
Definition consumed (st st' : mstate) : text :=
  firstn (length (after st) - length (after st')) (after st).

Definition set_cap (n : nat) (t : text) (st : mstate) : mstate :=
  MState (before st) (after st) ((n, t) :: caps st).

Definition word_at (s : text) : bool :=
  match s with
  | [] => false
  | c :: _ => is_word c
  end.

(** All match states of [r] from [st], in backtracking priority order. *)
Fixpoint matches (r : regex) (st : mstate) : list mstate :=
  match r with
  | Eps => [st]
  | Cls p =>
      match after st with
      | c :: _ => if p c then [advance 1 st] else []
      | [] => []
      end
  | Seq r1 r2 => flat_map (matches r2) (matches r1 st)
  | Alt r1 r2 => matches r1 st ++ matches r2 st
  | Rep greedy lo hi p =>
      let ns := counts lo hi (run_length p (after st)) in
      map (fun n => advance n st) (if greedy then rev ns else ns)
  | Grp n r' =>
      map (fun st' => set_cap n (consumed st st') st') (matches r' st)
  | Bol => match before st with [] => [st] | _ :: _ => [] end
  | Eol =>
      match after st with
      | [] => [st]
      | [c] => if Ascii.eqb c newline then [st] else []
      | _ => []
      end
  | Wordb =>
      if xorb (word_at (before st)) (word_at (after st)) then [st] else []
  end.

(** A match object: text before the match, matched text, text after it,
    and the captured groups. *)
Record rmatch := RMatch {
  m_pre : text;
  m_text : text;
  m_post : text;
  m_caps : list (nat * text)
}.

Definition mk_match (bef aft : text) (e : mstate) : rmatch :=
  RMatch (rev bef) (consumed (MState bef aft []) e) (after e) (caps e).

(** [m.group(n)]: [None] when the group took no part in the match. *)
Fixpoint lookup (n : nat) (cs : list (nat * text)) : option text :=
  match cs with
  | [] => None
  | (k, t) :: cs' => if k =? n then Some t else lookup n cs'
  end.

Definition group (m : rmatch) (n : nat) : option text := lookup n (m_caps m).

(** The first match of [r] starting exactly at the current position. *)
Definition match_here (r : regex) (bef aft : text) : option rmatch :=
  match matches r (MState bef aft []) with
  | e :: _ => Some (mk_match bef aft e)
  | [] => None
  end.

(** Leftmost match at or after the current position. *)
Fixpoint search_at (r : regex) (bef aft : text) : option rmatch :=
  match match_here r bef aft with
  | Some m => Some m
  | None =>
      match aft with
      | [] => None
      | c :: aft' => search_at r (c :: bef) aft'
      end
  end.

(** [re.search(r, s)] *)
Definition search (r : regex) (s : text) : option rmatch := search_at r [] s.

(** [re.match(r, s)] *)
Definition match_ (r : regex) (s : text) : option rmatch := match_here r [] s.

(** The first match at the current position that consumes at least one
    character: what the engine finds when it must advance after an empty
    match. *)
Definition match_here_nonempty (r : regex) (bef aft : text) : option mstate :=
  find (fun e => length (after e) <? length aft) (matches r (MState bef aft [])).

(** [re.sub(r, repl, s)] for a replacement without group references.
    [skip] counts the characters of an earlier match still to be passed.
    At a free position the first match is replaced; an empty match is
    followed by the first non-empty match at the same position, if any. *)
Fixpoint sub_walk (r : regex) (repl : text) (skip : nat) (bef aft : text) : text :=
  match skip with
  | S k =>
      match aft with
      | [] => []
      | c :: aft' => sub_walk r repl k (c :: bef) aft'
      end
  | 0 =>
      let step (out : text) (n : nat) :=
        match aft with
        | [] => out
        | c :: aft' =>
            match n with
            | 0 => out ++ c :: sub_walk r repl 0 (c :: bef) aft'
            | S k => out ++ sub_walk r repl k (c :: bef) aft'
            end
        end in
      match matches r (MState bef aft []) with
      | [] => step [] 0
      | e :: _ =>
          let n := length aft - length (after e) in
          match n with
          | S _ => step repl n
          | 0 =>
              match match_here_nonempty r bef aft with
              | Some e' => step (repl ++ repl) (length aft - length (after e'))
              | None => step repl 0
              end
          end
      end
  end.

Definition sub (r : regex) (repl : text) (s : text) : text :=
  sub_walk r repl 0 [] s.

(** *** Pattern-building shorthands *)

Definition chr (c : ascii) : regex := Cls (Ascii.eqb c).

(** A literal character under [re.IGNORECASE]. *)
Definition chr_ci (c : ascii) : regex :=
  Cls (fun x => Ascii.eqb (to_lower x) (to_lower c)).

(** The pattern that matches nothing. *)
Definition fail : regex := Cls (fun _ => false).

(** Concatenation and alternation of a list of patterns. *)
Definition seq_of (rs : list regex) : regex := fold_right Seq Eps rs.
Definition alt_of (rs : list regex) : regex := fold_right Alt fail rs.

(** A literal string. *)
Definition lit (s : string) : regex := seq_of (map chr (str s)).
Definition lit_ci (s : string) : regex := seq_of (map chr_ci (str s)).

Definition opt (r : regex) : regex := Alt r Eps.
Definition star (p : ascii -> bool) : regex := Rep true 0 None p.
Definition plus (p : ascii -> bool) : regex := Rep true 1 None p.
Definition plus_lazy (p : ascii -> bool) : regex := Rep false 1 None p.
Definition times (lo hi : nat) (p : ascii -> bool) : regex := Rep true lo (Some hi) p.

(** [.] matches anything but a newline. *)
Definition dot (c : ascii) : bool := negb (Ascii.eqb c newline).

Definition one_of (s : string) (c : ascii) : bool :=
  existsb (Ascii.eqb c) (str s).

End Re.

Import Re.
Local Open Scope string_scope.
Local Open Scope list_scope.
Local Open Scope nat_scope.

(** ** Floats *)

(** The decimal value of a string of digits. *)
Definition digit_value (c : ascii) : Z := Z.of_nat (code c - 48).

Definition digits_value (s : text) : Z :=
  fold_left (fun a c => (10 * a + digit_value c)%Z) s 0%Z.

Definition is_nil {A} (l : list A) : bool :=
  match l with [] => true | _ :: _ => false end.

(** [float(s)] on the unsigned decimal literals [ddd], [ddd.ddd], [ddd.] and
    [.ddd], which are the only strings the extractors pass to it; any other
    string is reported as [ValueError]. *)
Definition float_of (s : text) : result Q :=
  let ip := take_while is_digit s in
  match drop_while is_digit s with
  | [] => if is_nil ip then Raise ValueError else Ok (inject_Z (digits_value ip))
  | c :: fp =>
      if Ascii.eqb c "." && forallb is_digit fp && negb (is_nil ip && is_nil fp)
      then Ok (Qred (digits_value (ip ++ fp) # Z.to_pos (10 ^ Z.of_nat (length fp))))
      else Raise ValueError
  end.

(** [float(m.group(n))]; a group that took no part is [None], on which
    [float] raises [TypeError]. *)
Definition float_group (m : rmatch) (n : nat) : result Q :=
  match group m n with
  | Some t => float_of t
  | None => Raise TypeError
  end.

(** [m.group(n)] used as a string: [None] has no string methods. *)
Definition group_text (m : rmatch) (n : nat) : result text :=
  match group m n with
  | Some t => Ok t
  | None => Raise AttributeError
  end.

Definition fmul (a b : Q) : Q := Qred (a * b).

(** Python's true division raises on a zero divisor. *)
Definition fdiv (a b : Q) : result Q :=
  if Qeq_bool b 0 then Raise ZeroDivisionError else Ok (Qred (a / b)).

Definition Qltb (a b : Q) : bool := negb (Qle_bool b a).

(** ** Items *)

(** The dictionaries built by the two line-item extractors. *)
Record item := Item {
  name : text;
  quantity : Q;
  unit_price : Q;
  total_price : Q
}.

(** [\d+\.\d{2}] *)
Definition amount : regex :=
  seq_of [plus is_digit; chr "."; times 2 2 is_digit].

(** [any(skip in line.lower() for skip in words)] *)
Definition any_in (words : list string) (line : text) : bool :=
  existsb (fun skip => contains (str skip) (lower line)) words.

(** ** Dates: [datetime.strptime] *)

Record datetime := DateTime {
  year : nat;
  month : nat;
  day : nat;
  hour : nat;
  minute : nat;
  second : nat
}.

Module Strptime.

(** Group numbers standing for the named groups of the format regex. *)
Definition g_d := 1.
Definition g_m := 2.
Definition g_Y := 3.
Definition g_y := 4.
Definition g_b := 5.
Definition g_B := 6.

(** The class [[lo-hi]]. *)
Definition between (lo hi : ascii) (c : ascii) : bool :=
  in_range (code lo) (code hi) c.

(** Month names of the C locale, lower-cased, January first. *)
Definition a_month : list string :=
  [ "jan"; "feb"; "mar"; "apr"; "may"; "jun";
    "jul"; "aug"; "sep"; "oct"; "nov"; "dec" ].

Definition f_month : list string :=
  [ "january"; "february"; "march"; "april"; "may"; "june";
    "july"; "august"; "september"; "october"; "november"; "december" ].

(** The alternation of names, longest first, as the library sorts them. *)
Definition f_month_by_length : list string :=
  [ "september"; "february"; "november"; "december"; "january"; "october";
    "august"; "march"; "april"; "june"; "july"; "may" ].

(** The regex of one directive. *)
Definition directive (d : ascii) : option regex :=
  if Ascii.eqb d "d" then
    (* 3[0-1]|[1-2]\d|0[1-9]|[1-9]| [1-9] *)
    Some (Grp g_d (alt_of
      [ Seq (chr "3") (Cls (between "0" "1"));
        Seq (Cls (between "1" "2")) (Cls is_digit);
        Seq (chr "0") (Cls (between "1" "9"));
        Cls (between "1" "9");
        Seq (chr " ") (Cls (between "1" "9")) ]))
  else if Ascii.eqb d "m" then
    (* 1[0-2]|0[1-9]|[1-9] *)
    Some (Grp g_m (alt_of
      [ Seq (chr "1") (Cls (between "0" "2"));
        Seq (chr "0") (Cls (between "1" "9"));
        Cls (between "1" "9") ]))
  else if Ascii.eqb d "Y" then
    Some (Grp g_Y (seq_of [Cls is_digit; Cls is_digit; Cls is_digit; Cls is_digit]))
  else if Ascii.eqb d "y" then
    Some (Grp g_y (seq_of [Cls is_digit; Cls is_digit]))
  else if Ascii.eqb d "b" then
    Some (Grp g_b (alt_of (map lit_ci a_month)))
  else if Ascii.eqb d "B" then
    Some (Grp g_B (alt_of (map lit_ci f_month_by_length)))
  else None.

(** The regex of a format: a directive becomes its regex, a run of
    whitespace becomes [\s+], any other character stands for itself; the
    whole is compiled with [re.IGNORECASE]. *)
Fixpoint pattern (in_space : bool) (fmt : text) : option (list regex) :=
  match fmt with
  | [] => Some []
  | c :: rest =>
      if Ascii.eqb c "%" then
        match rest with
        | d :: rest' =>
            match directive d, pattern false rest' with
            | Some r, Some rs => Some (r :: rs)
            | _, _ => None
            end
        | [] => None
        end
      else if is_space c then
        match pattern true rest with
        | Some rs => Some (if in_space then rs else plus is_space :: rs)
        | None => None
        end
      else
        match pattern false rest with
        | Some rs => Some (chr_ci c :: rs)
        | None => None
        end
  end.

(** [int(s)] on a string of digits, possibly after blanks. *)
Definition int_of (s : text) : nat := Z.to_nat (digits_value (lstrip s)).

Fixpoint index_of (s : text) (names : list string) (i : nat) : option nat :=
  match names with
  | [] => None
  | n :: names' =>
      if text_eqb s (str n) then Some i else index_of s names' (S i)
  end.

Definition is_leap (y : nat) : bool :=
  ((y mod 4 =? 0) && negb (y mod 100 =? 0)) || (y mod 400 =? 0).

Definition days_in_month (y m : nat) : nat :=
  match m with
  | 2 => if is_leap y then 29 else 28
  | 4 | 6 | 9 | 11 => 30
  | _ => 31
  end.

Definition MINYEAR : nat := 1.
Definition MAXYEAR : nat := 9999.

(** The range check of the [date] constructor. *)
Definition valid_date (y m d : nat) : bool :=
  (MINYEAR <=? y) && (y <=? MAXYEAR) && (1 <=? m) && (m <=? 12) &&
  (1 <=? d) && (d <=? days_in_month y m).

Definition field (m : rmatch) (g : nat) (default : nat) (f : text -> option nat)
  : option nat :=
  match group m g with
  | Some t => f t
  | None => Some default
  end.

Definition first_some (a b : option nat) : option nat :=
  match a with
  | Some _ => a
  | None => b
  end.

(** [datetime.strptime(data_string, format)] for the directives above. *)
Definition strptime (data_string : text) (format : string) : result datetime :=
  match pattern false (str format) with
  | None => Raise ValueError
  | Some rs =>
      match match_ (seq_of rs) data_string with
      | None => Raise ValueError
      | Some found =>
          if negb (is_nil (m_post found)) then Raise ValueError
          else
            let year :=
              match group found g_Y, group found g_y with
              | Some t, _ => int_of t
              | None, Some t =>
                  let y := int_of t in if y <=? 68 then y + 2000 else y + 1900
              | None, None => 1900
              end in
            let month :=
              match group found g_m, group found g_B, group found g_b with
              | Some t, _, _ => Some (int_of t)
              | None, Some t, _ => index_of (lower t) f_month 1
              | None, None, Some t => index_of (lower t) a_month 1
              | None, None, None => Some 1
              end in
            let day :=
              match group found g_d with
              | Some t => int_of t
              | None => 1
              end in
            match month with
            | Some month =>
                if valid_date year month day
                then Ok (DateTime year month day 0 0 0)
                else Raise ValueError
            | None => Raise ValueError
            end
      end
  end.

End Strptime.

(** ** Scan path: [ReceiptProcessor] *)

Module ReceiptProcessor.

Definition store_patterns : list (string * regex) :=
  [ ("walmart", Alt (lit "walmart") (lit "wal-mart"));
    ("kroger", lit "kroger");
    ("target", lit "target");
    ("costco", lit "costco");
    ("whole foods", seq_of [lit "whole"; star is_space; lit "foods"]);
    ("trader joe", seq_of [lit "trader"; star is_space; lit "joe"]);
    ("safeway", lit "safeway");
    ("publix", lit "publix");
    ("albertsons", lit "albertsons");
    ("aldi", lit "aldi") ].

(** The [for store, pattern in ...items()] loop with its early return. *)
Fixpoint first_store (ps : list (string * regex)) (text_lower : text) : text :=
  match ps with
  | [] => str "Unknown Store"
  | (store, pattern) :: ps' =>
      match search pattern text_lower with
      | Some _ => title (str store)
      | None => first_store ps' text_lower
      end
  end.

Definition _extract_store_name (t : text) : text :=
  first_store store_patterns (lower t).

(** [[\$]?\s*(\d+\.\d{2})\s*$] *)
Definition price_pattern : regex :=
  seq_of [opt (chr "$"); star is_space; Grp 1 amount; star is_space; Eol].

(** [(\d+)\s*@\s*[\$]?(\d+\.\d{2})] *)
Definition quantity_pattern : regex :=
  seq_of [Grp 1 (plus is_digit); star is_space; chr "@"; star is_space;
          opt (chr "$"); Grp 2 amount].

Definition skip_words : list string :=
  [ "total"; "subtotal"; "tax"; "balance"; "payment"; "change"; "visa";
    "mastercard"; "cash"; "credit"; "debit"; "***"; "---"; "thank you";
    "receipt"; "store"; "date" ].

(** [_clean_item_name]: [\s+] to one space, delete [[^\w\s-]], strip,
    title-case. *)
Definition special (c : ascii) : bool :=
  negb (is_word c || is_space c || Ascii.eqb c "-").

Definition _clean_item_name (name : text) : text :=
  let name := sub (plus is_space) (str " ") name in
  let name := sub (Cls special) [] name in
  let name := strip name in
  title name.

(** The body of the [for line in lines] loop: the item the line appends, if
    any. *)
Definition item_of_line (line : text) : result (option item) :=
  if any_in skip_words line then Ok None
  else
    match search quantity_pattern line with
    | Some qty_match =>
        quantity <- float_group qty_match 1 ;;
        unit_price <- float_group qty_match 2 ;;
        let total_price := fmul quantity unit_price in
        let name := strip (sub quantity_pattern [] line) in
        if negb (is_nil name) && (2 <? length name)
        then Ok (Some (Item (_clean_item_name name) quantity unit_price total_price))
        else Ok None
    | None =>
        match search price_pattern line with
        | Some price_match =>
            price <- float_group price_match 1 ;;
            let name := strip (sub price_pattern [] line) in
            if negb (is_nil name) && (2 <? length name) && Qltb 0 price
            then Ok (Some (Item (_clean_item_name name) 1 price price))
            else Ok None
        | None => Ok None
        end
    end.

Fixpoint extract_loop (items : list item) (lines : list text) : result (list item) :=
  match lines with
  | [] => Ok items
  | line :: rest =>
      it <- item_of_line line ;;
      extract_loop (match it with Some i => items ++ [i] | None => items end) rest
  end.

Definition _extract_items (lines : list text) : result (list item) :=
  extract_loop [] lines.

(** [(?:total|amount due|balance)[\s:]*[\$]?\s*(\d+\.\d{2})] *)
Definition sep (c : ascii) : bool := is_space c || Ascii.eqb c ":".

Definition total_pattern : regex :=
  seq_of [alt_of [lit "total"; lit "amount due"; lit "balance"];
          star sep; opt (chr "$"); star is_space; Grp 1 amount].

(** [(?:tax|sales tax)[\s:]*[\$]?\s*(\d+\.\d{2})] *)
Definition tax_pattern : regex :=
  seq_of [alt_of [lit "tax"; lit "sales tax"];
          star sep; opt (chr "$"); star is_space; Grp 1 amount].

Definition first_amount (pattern : regex) (t : text) : result Q :=
  match search pattern t with
  | Some m => float_group m 1
  | None => Ok 0%Q
  end.

Definition _extract_totals (t : text) : result (Q * Q) :=
  total <- first_amount total_pattern (lower t) ;;
  tax <- first_amount tax_pattern (lower t) ;;
  Ok (total, tax).

(** The date-shaped patterns, each wrapped in group 1:
    [(\d{1,2}[-/]\d{1,2}[-/]\d{2,4})], [(\d{4}[-/]\d{1,2}[-/]\d{1,2})],
    [(\d{1,2}\s+(?:jan|...|dec)[a-z]*\s+\d{2,4})]. *)
Definition date_patterns : list regex :=
  [ Grp 1 (seq_of [times 1 2 is_digit; Cls (one_of "-/"); times 1 2 is_digit;
                   Cls (one_of "-/"); times 2 4 is_digit]);
    Grp 1 (seq_of [times 4 4 is_digit; Cls (one_of "-/"); times 1 2 is_digit;
                   Cls (one_of "-/"); times 1 2 is_digit]);
    Grp 1 (seq_of [times 1 2 is_digit; plus is_space;
                   alt_of (map lit Strptime.a_month); star is_lower;
                   plus is_space; times 2 4 is_digit]) ].

Definition date_formats : list string :=
  [ "%m/%d/%Y"; "%m-%d-%Y"; "%m/%d/%y"; "%m-%d-%y";
    "%Y-%m-%d"; "%Y/%m/%d"; "%d %b %Y"; "%d %B %Y" ].

(** The inner [for fmt in ...] loop: the first format that parses;
    [ValueError] moves on to the next format, any other exception
    propagates. *)
Fixpoint try_formats (fmts : list string) (date_str : text)
  : result (option datetime) :=
  match fmts with
  | [] => Ok None
  | fmt :: fmts' =>
      match Strptime.strptime date_str fmt with
      | Ok d => Ok (Some d)
      | Raise ValueError => try_formats fmts' date_str
      | Raise e => Raise e
      end
  end.

(** The outer [for pattern in patterns] loop; falling out of it returns
    [datetime.now()]. *)
Fixpoint try_patterns (now : datetime) (patterns : list regex) (text_lower : text)
  : result datetime :=
  match patterns with
  | [] => Ok now
  | pattern :: patterns' =>
      match search pattern text_lower with
      | Some m =>
          date_str <- group_text m 1 ;;
          parsed <- try_formats date_formats date_str ;;
          match parsed with
          | Some d => Ok d
          | None => try_patterns now patterns' text_lower
          end
      | None => try_patterns now patterns' text_lower
      end
  end.

Definition _extract_date (now : datetime) (t : text) : result datetime :=
  try_patterns now date_patterns (lower t).

(** The dictionary returned by [parse_receipt_text]. *)
Record receipt := Receipt {
  store_name : text;
  purchase_date : datetime;
  items : list item;
  total_amount : Q;
  tax_amount : Q;
  raw_text : text
}.

(** [[line.strip() for line in text.split('\n') if line.strip()]] *)
Definition stripped_lines (t : text) : list text :=
  map strip (filter (fun line => negb (is_nil (strip line)))
                    (split_on newline t)).

Definition parse_receipt_text (now : datetime) (t : text) : result receipt :=
  let lines := stripped_lines t in
  let store_name := _extract_store_name t in
  purchase_date <- _extract_date now t ;;
  items <- _extract_items lines ;;
  totals <- _extract_totals t ;;
  Ok (Receipt store_name purchase_date items (fst totals) (snd totals) t).

End ReceiptProcessor.

(** ** Category classifier: [ItemCategorizer] *)

Module ItemCategorizer.

Record category_data := CategoryData {
  keywords : list string;
  color : string
}.

(** The [categories] dictionary, in insertion order. *)
Definition categories : list (string * category_data) :=
  [ ("Produce", CategoryData
      [ "apple"; "banana"; "orange"; "grape"; "berry"; "strawberry";
        "lettuce"; "tomato"; "potato"; "onion"; "carrot"; "broccoli";
        "spinach"; "celery"; "pepper"; "avocado"; "cucumber"; "fruit";
        "vegetable"; "salad"; "melon"; "peach"; "pear"; "plum"; "mango";
        "pineapple"; "kale"; "cabbage"; "squash"; "zucchini"; "corn" ]
      "#4CAF50");
    ("Meat & Seafood", CategoryData
      [ "chicken"; "beef"; "pork"; "turkey"; "fish"; "salmon"; "tuna";
        "shrimp"; "meat"; "steak"; "ground"; "bacon"; "sausage"; "ham";
        "lamb"; "tilapia"; "cod"; "ribeye"; "sirloin"; "brisket" ]
      "#F44336");
    ("Dairy & Eggs", CategoryData
      [ "milk"; "cheese"; "yogurt"; "butter"; "cream"; "egg";
        "sour cream"; "cottage"; "cheddar"; "mozzarella"; "parmesan";
        "ice cream"; "whipped"; "half and half"; "dairy" ]
      "#FFF9C4");
    ("Bakery & Bread", CategoryData
      [ "bread"; "bagel"; "roll"; "bun"; "baguette"; "croissant";
        "muffin"; "donut"; "cake"; "cookie"; "pastry"; "tortilla";
        "wrap"; "pita"; "bakery" ]
      "#D7CCC8");
    ("Pantry & Canned", CategoryData
      [ "pasta"; "rice"; "bean"; "sauce"; "soup"; "cereal"; "oats";
        "flour"; "sugar"; "salt"; "pepper"; "spice"; "oil"; "vinegar";
        "can"; "canned"; "jar"; "box"; "bag"; "chips"; "crackers";
        "peanut butter"; "jelly"; "jam"; "honey"; "syrup" ]
      "#FF9800");
    ("Beverages", CategoryData
      [ "water"; "juice"; "soda"; "coffee"; "tea"; "beer"; "wine";
        "alcohol"; "drink"; "beverage"; "lemonade"; "cola"; "sprite";
        "energy drink"; "sports drink"; "smoothie" ]
      "#2196F3");
    ("Frozen", CategoryData
      [ "frozen"; "ice"; "pizza"; "freezer"; "popsicle"; "ice cream" ]
      "#B3E5FC");
    ("Snacks & Sweets", CategoryData
      [ "candy"; "chocolate"; "snack"; "chip"; "popcorn"; "pretzel";
        "cracker"; "granola"; "bar"; "gum"; "mint"; "cookie" ]
      "#E91E63");
    ("Condiments & Sauces", CategoryData
      [ "ketchup"; "mustard"; "mayo"; "mayonnaise"; "dressing";
        "salsa"; "hot sauce"; "bbq"; "marinade"; "soy sauce";
        "worcestershire"; "relish"; "pickle" ]
      "#795548");
    ("Other", CategoryData [] "#9E9E9E") ].

(** [r'\b' + re.escape(keyword) + r'\b'] *)
Definition keyword_pattern (keyword : string) : regex :=
  Seq Wordb (Seq (lit keyword) Wordb).

(** The inner [for keyword in data['keywords']] loop. *)
Fixpoint keyword_hit (kws : list string) (item_lower : text) : bool :=
  match kws with
  | [] => false
  | keyword :: kws' =>
      match search (keyword_pattern keyword) item_lower with
      | Some _ => true
      | None => keyword_hit kws' item_lower
      end
  end.

(** The outer [for category, data in self.categories.items()] loop. *)
Fixpoint first_category (cats : list (string * category_data)) (item_lower : text)
  : string :=
  match cats with
  | [] => "Other"
  | (category, data) :: cats' =>
      if String.eqb category "Other" then first_category cats' item_lower
      else if keyword_hit (keywords data) item_lower then category
      else first_category cats' item_lower
  end.

Definition categorize_item (item_name : text) : string :=
  if is_nil item_name then "Other"
  else first_category categories (lower item_name).

(** [d.get(k)] on a dictionary kept in insertion order. *)
Fixpoint dict_get {V : Type} (d : list (string * V)) (k : string) : option V :=
  match d with
  | [] => None
  | (k', v) :: d' => if String.eqb k' k then Some v else dict_get d' k
  end.

(** [self.categories.get(category, {}).get('color', '#9E9E9E')] *)
Definition get_category_color (category : string) : string :=
  match dict_get categories category with
  | Some data => color data
  | None => "#9E9E9E"
  end.

(** [{cat: {'color': data['color']} for cat, data in ...items()}]; the
    inner dictionary holds the colour only. *)
Definition get_all_categories : list (string * string) :=
  map (fun e => (fst e, color (snd e))) categories.

End ItemCategorizer.

(** ** Item records *)

Record ItemRecord := MkItemRecord {
  ir_name : text;
  ir_quantity : Q;
  ir_unit_price : Q;
  ir_total_price : Q;
  ir_category : string
}.

(** The item loop of [save_receipt_to_db]: each extracted item is classified
    by its name. *)
Definition item_record (item_data : item) : ItemRecord :=
  let category := ItemCategorizer.categorize_item (name item_data) in
  MkItemRecord (name item_data) (quantity item_data) (unit_price item_data)
               (total_price item_data) category.

Definition item_records (items : list item) : list ItemRecord :=
  map item_record items.

(** ** Email path: [EmailReceiptParser] *)

Module EmailReceiptParser.

Definition store_patterns : list (string * regex) :=
  [ ("walmart", Alt (lit "walmart") (lit "wal-mart"));
    ("amazon", lit "amazon");
    ("kroger", lit "kroger");
    ("target", lit "target");
    ("instacart", lit "instacart");
    ("whole foods", seq_of [lit "whole"; star is_space; lit "foods"]);
    ("trader joe", seq_of [lit "trader"; star is_space; lit "joe"]) ].

(** An absent header formats as [None] inside the f-string. *)
Definition fmt_header (h : option text) : text :=
  match h with
  | Some t => t
  | None => str "None"
  end.

Definition _identify_store (body : text) (subject sender : option text) : text :=
  let combined_text :=
    lower (fmt_header subject ++ str " " ++ fmt_header sender ++ str " " ++ body) in
  ReceiptProcessor.first_store store_patterns combined_text.

Definition skip_words : list string :=
  [ "order summary"; "subtotal"; "total"; "tax"; "shipping"; "delivery";
    "payment"; "thank you"; "questions"; "customer service"; "***"; "---";
    "visit us"; "follow us" ].

(** [(\d+)\s*x\s*(.+?)(?:@\s*[\$]?(\d+\.\d{2}))?\s*[\$]?\s*(\d+\.\d{2})]
    under [re.IGNORECASE]; the letter [x] is its only cased character. *)
Definition pattern1 : regex :=
  seq_of [Grp 1 (plus is_digit); star is_space; chr_ci "x"; star is_space;
          Grp 2 (plus_lazy dot);
          opt (seq_of [chr "@"; star is_space; opt (chr "$"); Grp 3 amount]);
          star is_space; opt (chr "$"); star is_space; Grp 4 amount].

(** [(.+?)[\s]{2,}[\$]?\s*(\d+\.\d{2})\s*$] *)
Definition pattern2 : regex :=
  seq_of [Grp 1 (plus_lazy dot); Rep true 2 None is_space; opt (chr "$");
          star is_space; Grp 2 amount; star is_space; Eol].

(** [\s*(ea|each|lb|oz|kg|g)\s*$] under [re.IGNORECASE] *)
Definition suffix_pattern : regex :=
  seq_of [star is_space;
          Grp 1 (alt_of [lit_ci "ea"; lit_ci "each"; lit_ci "lb"; lit_ci "oz";
                         lit_ci "kg"; lit_ci "g"]);
          star is_space; Eol].

(** [^\d+\s*] *)
Definition leading_pattern : regex :=
  seq_of [Bol; plus is_digit; star is_space].

Definition _clean_item_name (name : text) : text :=
  let name := sub (plus is_space) (str " ") name in
  let name := sub leading_pattern [] name in
  let name := sub suffix_pattern [] name in
  let name := strip name in
  title name.

(** The body of the [for line in lines] loop. *)
Definition item_of_line (line : text) : result (option item) :=
  let line := strip line in
  if is_nil line || (length line <? 5) then Ok None
  else if any_in skip_words line then Ok None
  else
    match search pattern1 line with
    | Some match1 =>
        quantity <- float_group match1 1 ;;
        name <- group_text match1 2 ;;
        let name := strip name in
        unit_price <-
          match group match1 3 with
          | Some (c :: t) => float_of (c :: t)
          | _ => Ok 0%Q
          end ;;
        total_price <- float_group match1 4 ;;
        unit_price <-
          (if Qeq_bool unit_price 0 then fdiv total_price quantity
           else Ok unit_price) ;;
        Ok (Some (Item (_clean_item_name name) quantity unit_price total_price))
    | None =>
        match search pattern2 line with
        | Some match2 =>
            name <- group_text match2 1 ;;
            let name := strip name in
            price <- float_group match2 2 ;;
            if (2 <? length name) && Qltb 0 price && Qltb price 500
            then Ok (Some (Item (_clean_item_name name) 1 price price))
            else Ok None
        | None => Ok None
        end
    end.

Fixpoint extract_loop (items : list item) (lines : list text) : result (list item) :=
  match lines with
  | [] => Ok items
  | line :: rest =>
      it <- item_of_line line ;;
      extract_loop (match it with Some i => items ++ [i] | None => items end) rest
  end.

Definition _extract_items_from_email (body : text) (store_name : text)
  : result (list item) :=
  extract_loop [] (split_on newline body).

Definition money_tail : list regex :=
  [plus ReceiptProcessor.sep; opt (chr "$"); star is_space; Grp 1 amount].

Definition total_patterns : list regex :=
  [ seq_of (opt (seq_of [lit "order"; plus is_space]) :: lit "total" :: money_tail);
    seq_of (lit "amount" :: plus is_space :: Alt (lit "due") (lit "charged")
              :: money_tail);
    seq_of (lit "grand" :: plus is_space :: lit "total" :: money_tail) ].

Definition tax_patterns : list regex :=
  [ seq_of (opt (seq_of [lit "sales"; plus is_space]) :: lit "tax" :: money_tail);
    seq_of (lit "estimated" :: plus is_space :: lit "tax" :: money_tail) ].

(** The [for pattern in ...] loop with its [break] on the first pattern that
    matches. *)
Fixpoint first_pattern_amount (patterns : list regex) (t : text) : result Q :=
  match patterns with
  | [] => Ok 0%Q
  | pattern :: rest =>
      match search pattern t with
      | Some m => float_group m 1
      | None => first_pattern_amount rest t
      end
  end.

Definition _extract_totals_from_email (body : text) : result (Q * Q) :=
  total <- first_pattern_amount total_patterns (lower body) ;;
  tax <- first_pattern_amount tax_patterns (lower body) ;;
  Ok (total, tax).

(** The dictionary returned by [_parse_receipt_from_body]; [raw_text] is
    [body[:1000]]. *)
Record receipt_data := ReceiptData {
  store_name : text;
  items : list item;
  total_amount : Q;
  tax_amount : Q;
  raw_text : text
}.

Definition _parse_receipt_from_body (body : text) (subject sender : option text)
  : result receipt_data :=
  let store_name := _identify_store body subject sender in
  items <- _extract_items_from_email body store_name ;;
  totals <- _extract_totals_from_email body ;;
  Ok (ReceiptData store_name items (fst totals) (snd totals) (firstn 1000 body)).

(** [parse_eml_file] from the point where the message has been decoded into
    its subject, sender, parsed date and merged body: the receipt is parsed
    from the body, the date is attached, and any exception is re-raised as
    [ValueError]. *)
Definition parse_decoded_eml (date : datetime) (body : text)
           (subject sender : option text) : result (receipt_data * datetime) :=
  match _parse_receipt_from_body body subject sender with
  | Ok receipt_data => Ok (receipt_data, date)
  | Raise _ => Raise ValueError
  end.

End EmailReceiptParser.

(** * Specification-level notions *)

(** ** The language of a pattern

    The texts a pattern can consume, position-independent: anchors and word
    boundaries consume nothing. *)
Fixpoint lang (r : regex) (w : text) : Prop :=
  match r with
  | Eps | Bol | Eol | Wordb => w = []
  | Cls p => exists c, w = [c] /\ p c = true
  | Seq r1 r2 => exists u v, w = u ++ v /\ lang r1 u /\ lang r2 v
  | Alt r1 r2 => lang r1 w \/ lang r2 w
  | Rep _ lo hi p =>
      forallb p w = true /\ lo <= length w /\
      match hi with Some h => length w <= h | None => True end
  | Grp _ r' => lang r' w
  end.

(** The texts group [n] of a pattern can capture. *)
Fixpoint grp_lang (r : regex) (n : nat) (t : text) : Prop :=
  match r with
  | Seq r1 r2 | Alt r1 r2 => grp_lang r1 n t \/ grp_lang r2 n t
  | Grp k r' => (k = n /\ lang r' t) \/ grp_lang r' n t
  | _ => False
  end.

(** Group [n] takes part in every match of the pattern. *)
Fixpoint binds (r : regex) (n : nat) : bool :=
  match r with
  | Seq r1 r2 => binds r1 n || binds r2 n
  | Alt r1 r2 => binds r1 n && binds r2 n
  | Grp k r' => (k =? n) || binds r' n
  | _ => false
  end.

(** [st'] is [st] moved forward over [w]. *)
Definition moved (st st' : mstate) (w : text) : Prop :=
  after st = w ++ after st' /\ before st' = rev w ++ before st.

(** ** The two source paths, side by side *)

Inductive source_path := Scan | Email.

(** What the loop body of a path makes of one line. *)
Definition line_item (p : source_path) (line : text) : result (option item) :=
  match p with
  | Scan => ReceiptProcessor.item_of_line line
  | Email => EmailReceiptParser.item_of_line line
  end.

(** The item loop of a path over a list of lines; the email path obtains
    its lines as [body.split('\n')]. *)
Definition line_items (p : source_path) (lines : list text) : result (list item) :=
  match p with
  | Scan => ReceiptProcessor._extract_items lines
  | Email => EmailReceiptParser.extract_loop [] lines
  end.

(** The match of the explicit-quantity pattern of a path on a line, as the
    loop body computes it. *)
Definition quantity_match (p : source_path) (line : text) : option rmatch :=
  match p with
  | Scan => search ReceiptProcessor.quantity_pattern line
  | Email => search EmailReceiptParser.pattern1 (strip line)
  end.


(** ** Records up to the value of their numbers *)

Definition same_record (a b : ItemRecord) : Prop :=
  ir_name a = ir_name b /\
  (ir_quantity a == ir_quantity b)%Q /\
  (ir_unit_price a == ir_unit_price b)%Q /\
  (ir_total_price a == ir_total_price b)%Q /\
  ir_category a = ir_category b.

(** ["\n".join(lines)] *)
Fixpoint unlines (lines : list text) : text :=
  match lines with
  | [] => []
  | [l] => l
  | l :: ls => l ++ newline :: unlines ls
  end.

(** The three-line scenario document. *)
Definition scenario_lines : list text :=
  [ str "BANANAS  1.99"; str "MILK 2 @ 3.99  7.98"; str "TOTAL  9.97" ].

(** ** Store identification, as specified *)

Definition pattern_matches (r : regex) (t : text) : bool :=
  match search r t with
  | Some _ => true
  | None => false
  end.

(** ** Whole-word occurrence, as specified *)








(** ** Totals, as specified *)

(** The decimal an amount [ddd.dd] denotes: its digits read as hundredths. *)
Definition amount_value (t : text) : Q :=
  Qred (digits_value (filter is_digit t) # 100).

Definition captured_amount (m : rmatch) : Q :=
  match group m 1 with
  | Some g => amount_value g
  | None => 0
  end.

(** The amount of the leftmost match of one pattern; 0 without a match. *)
Definition leftmost_amount (pattern : regex) (t : text) : Q :=
  match search pattern t with
  | Some m => captured_amount m
  | None => 0
  end.

(** The amount of the leftmost match of the first pattern, in list order,
    that matches anywhere; 0 when none matches. *)
Definition list_order_amount (patterns : list regex) (t : text) : Q :=
  match find (fun r => pattern_matches r t) patterns with
  | Some r => leftmost_amount r t
  | None => 0
  end.

(** The match that starts earliest in the document among the leftmost
    matches of all patterns of a family. *)
Definition start (m : rmatch) : nat := length (m_pre m).

Fixpoint earliest (patterns : list regex) (t : text) : option rmatch :=
  match patterns with
  | [] => None
  | r :: rs =>
      match search r t, earliest rs t with
      | Some m, Some m' => if start m' <? start m then Some m' else Some m
      | Some m, None => Some m
      | None, o => o
      end
  end.

(** The amount of the first occurrence of a family in document order. *)
Definition document_order_amount (patterns : list regex) (t : text) : Q :=
  match earliest patterns t with
  | Some m => captured_amount m
  | None => 0
  end.

(** Group 1 takes part in every match of the pattern and holds an amount. *)
Definition amount_group (r : regex) : Prop :=
  binds r 1 = true /\ forall g, grp_lang r 1 g -> lang amount g.

(** ** Dates, as specified *)

Definition ok_value {A : Type} (r : result A) : option A :=
  match r with
  | Ok a => Some a
  | Raise _ => None
  end.

(** The parse under the first format, in order, that accepts the string. *)
Fixpoint first_parse (fmts : list string) (date_str : text) : option datetime :=
  match fmts with
  | [] => None
  | fmt :: fmts' =>
      match ok_value (Strptime.strptime date_str fmt) with
      | Some d => Some d
      | None => first_parse fmts' date_str
      end
  end.

(** What a pattern contributes: the parse of its leftmost match. *)
Definition pattern_date (pattern : regex) (t : text) : option datetime :=
  match search pattern t with
  | Some m =>
      match group m 1 with
      | Some date_str => first_parse ReceiptProcessor.date_formats date_str
      | None => None
      end
  | None => None
  end.

(** The patterns are tried in order until the match of one of them parses;
    the current time when none does. *)
Fixpoint date_spec (now : datetime) (patterns : list regex) (t : text) : datetime :=
  match patterns with
  | [] => now
  | pattern :: patterns' =>
      match pattern_date pattern t with
      | Some d => d
      | None => date_spec now patterns' t
      end
  end.

(** The reading under which only the first pattern that matches counts. *)
Definition date_first_match_only (now : datetime) (patterns : list regex) (t : text)
  : datetime :=
  match find (fun r => pattern_matches r t) patterns with
  | Some r =>
      match pattern_date r t with
      | Some d => d
      | None => now
      end
  | None => now
  end.

(** ** Noise *)


(** ** Name normalisation, as specified *)

(** Every maximal run of whitespace becomes one space. *)
Fixpoint collapse_from (in_space : bool) (s : text) : text :=
  match s with
  | [] => []
  | c :: s' =>
      if is_space c
      then if in_space then collapse_from true s'
           else " "%char :: collapse_from true s'
      else c :: collapse_from false s'
  end.

Definition collapse_ws (s : text) : text := collapse_from false s.

(** A leading run of digits goes, with the whitespace that follows it. *)
Definition strip_leading_code (s : text) : text :=
  match s with
  | c :: _ =>
      if is_digit c then drop_while is_space (drop_while is_digit s) else s
  | [] => []
  end.

Definition units : list string := [ "ea"; "each"; "lb"; "oz"; "kg"; "g" ].

(** The text is one of the unit words, in any letter case. *)
Definition is_unit (s : text) : bool :=
  existsb (fun u => text_eqb (lower s) (str u)) units.

(** The text is cut at the first position from which the rest is a unit
    word, possibly surrounded by whitespace. *)
Fixpoint cut_unit_suffix (s : text) : text :=
  if is_unit (strip s) then []
  else match s with
       | [] => []
       | c :: s' => c :: cut_unit_suffix s'
       end.

(** The characters the scan path keeps: word characters, whitespace and the
    hyphen. *)
Definition keep_char (c : ascii) : bool :=
  is_word c || is_space c || Ascii.eqb c "-".

(** The closing part of the unit-suffix pattern, [\s*$]. *)
Definition closing : regex := Seq (star is_space) (Seq Eol Eps).

(** * Further specification-level notions *)

(** The names the two store identifiers can return. *)
Definition scan_store_names : list string :=
  [ "Walmart"; "Kroger"; "Target"; "Costco"; "Whole Foods"; "Trader Joe";
    "Safeway"; "Publix"; "Albertsons"; "Aldi"; "Unknown Store" ].

Definition email_store_names : list string :=
  [ "Walmart"; "Amazon"; "Kroger"; "Target"; "Instacart"; "Whole Foods";
    "Trader Joe"; "Unknown Store" ].

(** ** Characters a pattern cannot match without *)

Definition all_ascii : list ascii := map ascii_of_nat (seq 0 256).

(** Every character of class [q] is of class [p]. *)
Definition within (q p : ascii -> bool) : bool :=
  forallb (fun c => implb (q c) (p c)) all_ascii.

(** A syntactic check that every text the pattern consumes contains a
    character of class [p]. *)
Fixpoint must (p : ascii -> bool) (r : regex) : bool :=
  match r with
  | Cls q => within q p
  | Seq r1 r2 => must p r1 || must p r2
  | Alt r1 r2 => must p r1 && must p r2
  | Rep _ lo _ q => (0 <? lo) && within q p
  | Grp _ r' => must p r'
  | Eps | Bol | Eol | Wordb => false
  end.

(** The text contains no character of class [p]. *)
Definition free_of (p : ascii -> bool) (t : text) : Prop := existsb p t = false.

Definition is_point (c : ascii) : bool := Ascii.eqb c ".".

Definition is_x (c : ascii) : bool := Ascii.eqb c "x" || Ascii.eqb c "X".

(** Two whitespace characters in a row. *)
Fixpoint has_double_space (s : text) : bool :=
  match s with
  | a :: (b :: _) as s' => (is_space a && is_space b) || has_double_space s'
  | _ => false
  end.

(** ** Shapes of the extracted values *)

(** A calendar date at midnight, as [strptime] returns for a format without
    a time directive. *)
Definition midnight_date (d : datetime) : bool :=
  Strptime.valid_date (year d) (month d) (day d) &&
  (hour d =? 0) && (minute d =? 0) && (second d =? 0).


(** ** Shapes of the cleaned texts *)

(** The characters of a name cleaned on the scan path. *)
Definition name_char (c : ascii) : bool :=
  is_word c || Ascii.eqb c " " || Ascii.eqb c "-".

(** A whitespace character other than the plain space is not this. *)
Definition plain (c : ascii) : bool := negb (is_space c) || Ascii.eqb c " ".

(** ** Skipped lines *)

Definition path_skip_words (p : source_path) : list string :=
  match p with
  | Scan => ReceiptProcessor.skip_words
  | Email => EmailReceiptParser.skip_words
  end.

(** A non-empty text with no whitespace at either end. *)
Definition solid_ends (w : text) : bool :=
  match w, rev w with
  | a :: _, b :: _ => negb (is_space a) && negb (is_space b)
  | _, _ => false
  end.

(** ** Patterns without anchors, and stores by substring *)

(** The pattern has no [^], [$] or [\b]: whether it matches at a position
    does not depend on what surrounds the matched text. *)
Fixpoint anchor_free (r : regex) : bool :=
  match r with
  | Eps | Cls _ | Rep _ _ _ _ => true
  | Seq r1 r2 | Alt r1 r2 => anchor_free r1 && anchor_free r2
  | Grp _ r' => anchor_free r'
  | Bol | Eol | Wordb => false
  end.

(** Some substring of the text is in the pattern's language. *)
Definition occurs (r : regex) (t : text) : Prop :=
  exists pre w post, t = pre ++ w ++ post /\ lang r w.

(** The two words occur in the text one after the other, separated by
    whitespace or by nothing. *)
Definition spaced (w1 w2 : string) (t : text) : Prop :=
  exists ws, forallb is_space ws = true /\
             contains (str w1 ++ ws ++ str w2) t = true.

(** What it takes for a store key to be found, without patterns. *)
Definition mentions (store : string) (t : text) : Prop :=
  if String.eqb store "walmart"
  then contains (str "walmart") t = true \/ contains (str "wal-mart") t = true
  else if String.eqb store "whole foods" then spaced "whole" "foods" t
  else if String.eqb store "trader joe" then spaced "trader" "joe" t
  else contains (str store) t = true.

(** The text the item patterns of a path are run against: the email loop
    trims the line first (the scan path is handed trimmed lines). *)
Definition searched_line (p : source_path) (line : text) : text :=
  match p with
  | Scan => line
  | Email => strip line
  end.

(** ** The range in which the model is Python's *)

(** ASCII text.  On it Python's [\s], [\w], [\b], [str.lower] and
    [str.title] are the ones modelled here; beyond it they follow Unicode
    (a no-break space is whitespace, an accented letter is a word
    character, a ligature title-cases to two letters). *)
Definition is_ascii (c : ascii) : bool := code c <? 128.

Definition ascii_only (t : text) : Prop := forallb is_ascii t = true.

Definition ascii_header (h : option text) : Prop :=
  match h with
  | Some t => ascii_only t
  | None => True
  end.



(** ** Rounding tolerance *)






(** * Properties of the regular-expression engine *)

#[local] Arguments Ascii.eqb : simpl never.
#[local] Arguments is_digit : simpl never.
#[local] Arguments is_space : simpl never.
#[local] Arguments is_word : simpl never.
#[local] Arguments is_alpha : simpl never.
#[local] Arguments is_upper : simpl never.
#[local] Arguments is_lower : simpl never.
#[local] Arguments to_lower : simpl never.
#[local] Arguments to_upper : simpl never.
#[local] Arguments newline : simpl never.

Section EngineFacts.

Lemma advance_split (n : nat) : forall st,
  n <= length (after st) ->
  exists w, length w = n /\ after st = w ++ after (advance n st) /\
            before (advance n st) = rev w ++ before st /\
            caps (advance n st) = caps st.
Proof.
  induction n as [|n IH]; intros st Hn.
  - exists []. simpl. auto.
  - simpl. destruct (after st) as [|c s'] eqn:Ha; simpl in Hn; [lia|].
    destruct (IH (MState (c :: before st) s' (caps st))) as (w & Hl & Hw & Hb & Hc).
    { simpl. lia. }
    exists (c :: w). simpl in *. repeat split.
    + now rewrite Hl.
    + now rewrite <- Hw.
    + rewrite Hb. now rewrite <- app_assoc.
    + exact Hc.
Qed.

Lemma run_length_le (p : ascii -> bool) (s : text) : run_length p s <= length s.
Proof. induction s as [|c s IH]; simpl; [lia|]. destruct (p c); simpl; lia. Qed.

Lemma run_length_prefix (p : ascii -> bool) : forall (w s : text),
  length w <= run_length p (w ++ s) -> forallb p w = true.
Proof.
  induction w as [|c w IH]; intros s H; simpl in *; [reflexivity|].
  destruct (p c); [|lia]. simpl. apply (IH s). lia.
Qed.

Lemma in_counts (lo : nat) (hi : option nat) (run n : nat) :
  In n (counts lo hi run) <->
  lo <= n /\ n <= run /\ match hi with Some h => n <= h | None => True end.
Proof.
  unfold counts. rewrite in_seq. destruct hi as [h|]; lia.
Qed.

End EngineFacts.

Section MatchFacts.

Lemma moved_refl (st : mstate) : moved st st [].
Proof. split; reflexivity. Qed.

Lemma moved_trans (a b c : mstate) (u v : text) :
  moved a b u -> moved b c v -> moved a c (u ++ v).
Proof.
  intros [H1 H2] [H3 H4]. split.
  - rewrite H1, H3. now rewrite app_assoc.
  - rewrite H4, H2, rev_app_distr. now rewrite app_assoc.
Qed.

Lemma moved_consumed (st st' : mstate) (w : text) :
  moved st st' w -> consumed st st' = w.
Proof.
  intros [H _]. unfold consumed. rewrite H, length_app.
  replace (length w + length (after st') - length (after st')) with (length w) by lia.
  rewrite firstn_app, firstn_all, Nat.sub_diag. simpl. apply app_nil_r.
Qed.


(** Every match state lies ahead of the entry state, over a text of the
    pattern's language, and only adds captures. *)
Lemma matches_sound (r : regex) : forall st st',
  In st' (matches r st) ->
  exists w new,
    moved st st' w /\ lang r w /\ caps st' = new ++ caps st /\
    forall n t, In (n, t) new -> grp_lang r n t.
Proof.
  induction r as [|p|r1 IH1 r2 IH2|r1 IH1 r2 IH2|g lo hi p|k r IH| | |];
    intros st st' Hin; simpl in Hin.
  - destruct Hin as [<-|[]]. exists [], []. repeat split; simpl; tauto.
  - destruct (after st) as [|c s'] eqn:Ha; [destruct Hin|].
    destruct (p c) eqn:Hp; [|destruct Hin].
    destruct Hin as [<-|[]]. simpl.
    exists [c], []. unfold moved. simpl. rewrite Ha.
    repeat split; try tauto. now exists c.
  - apply in_flat_map in Hin. destruct Hin as (mid & Hm & Hin).
    destruct (IH1 _ _ Hm) as (u & n1 & Hu & Lu & Cu & Gu).
    destruct (IH2 _ _ Hin) as (v & n2 & Hv & Lv & Cv & Gv).
    exists (u ++ v), (n2 ++ n1). repeat split.
    + apply (moved_trans _ _ _ _ _ Hu Hv).
    + apply (moved_trans _ _ _ _ _ Hu Hv).
    + simpl. now exists u, v.
    + rewrite Cv, Cu. now rewrite app_assoc.
    + intros n t Hnt. simpl. apply in_app_or in Hnt. destruct Hnt; [right|left]; auto.
  - apply in_app_or in Hin. destruct Hin as [Hin|Hin].
    + destruct (IH1 _ _ Hin) as (w & nw & Hw & Lw & Cw & Gw).
      exists w, nw. repeat split; try apply Hw; simpl; auto.
    + destruct (IH2 _ _ Hin) as (w & nw & Hw & Lw & Cw & Gw).
      exists w, nw. repeat split; try apply Hw; simpl; auto.
  - apply in_map_iff in Hin. destruct Hin as (n & <- & Hn).
    assert (Hc : In n (counts lo hi (run_length p (after st)))).
    { destruct g; [now apply in_rev|assumption]. }
    apply in_counts in Hc. destruct Hc as (Hlo & Hrun & Hhi).
    destruct (advance_split n st) as (w & Hl & Hw & Hb & Hcap).
    { pose proof (run_length_le p (after st)). lia. }
    exists w, []. repeat split; simpl; try assumption; try tauto.
    + apply (run_length_prefix p w (after (advance n st))). rewrite <- Hw. lia.
    + lia.
    + destruct hi; [lia|exact I].
  - apply in_map_iff in Hin. destruct Hin as (e & <- & He).
    destruct (IH _ _ He) as (w & nw & Hw & Lw & Cw & Gw).
    exists w, ((k, consumed st e) :: nw). repeat split; simpl; try apply Hw; auto.
    + now rewrite Cw.
    + intros n t [Heq|Hnt]; [|right; auto].
      inversion Heq; subst. left. split; [reflexivity|].
      now rewrite (moved_consumed _ _ _ Hw).
  - destruct (before st); [|destruct Hin]. destruct Hin as [<-|[]].
    exists [], []. repeat split; simpl; tauto.
  - assert (st' = st) as ->.
    { destruct (after st) as [|c [|d s']]; try (destruct Hin as [<-|[]]; reflexivity);
        try destruct Hin.
      destruct (Ascii.eqb c newline); [destruct Hin as [<-|[]]; reflexivity|destruct Hin]. }
    exists [], []. repeat split; simpl; tauto.
  - destruct (xorb _ _); [|destruct Hin]. destruct Hin as [<-|[]].
    exists [], []. repeat split; simpl; tauto.
Qed.

Lemma lookup_app_some (n : nat) (new old : list (nat * text)) (t : text) :
  lookup n (new ++ old) = Some t ->
  In (n, t) new \/ lookup n old = Some t.
Proof.
  induction new as [|[k u] new IH]; simpl; intros H; [now right|].
  destruct (k =? n) eqn:Hk.
  - apply Nat.eqb_eq in Hk. inversion H; subst. left. now left.
  - destruct (IH H); [left; now right|now right].
Qed.

Lemma lookup_app_keep (n : nat) (new old : list (nat * text)) :
  lookup n old <> None -> lookup n (new ++ old) <> None.
Proof.
  induction new as [|[k u] new IH]; simpl; intros H; [assumption|].
  destruct (k =? n); [discriminate|auto].
Qed.

(** A group that takes part in every match is captured by every match. *)
Lemma matches_binds (r : regex) (n : nat) : forall st st',
  binds r n = true -> In st' (matches r st) -> lookup n (caps st') <> None.
Proof.
  induction r as [|p|r1 IH1 r2 IH2|r1 IH1 r2 IH2|g lo hi p|k r IH| | |];
    intros st st' Hb Hin; simpl in Hb; try discriminate.
  - simpl in Hin. apply in_flat_map in Hin. destruct Hin as (mid & Hm & Hin).
    apply orb_true_iff in Hb. destruct Hb as [Hb|Hb].
    + destruct (matches_sound _ _ _ Hin) as (w & nw & _ & _ & Cw & _).
      rewrite Cw. apply lookup_app_keep. now apply (IH1 st).
    + now apply (IH2 mid).
  - simpl in Hin. apply andb_true_iff in Hb. destruct Hb as [Hb1 Hb2].
    apply in_app_or in Hin. destruct Hin; [now apply (IH1 st)|now apply (IH2 st)].
  - simpl in Hin. apply in_map_iff in Hin. destruct Hin as (e & <- & He).
    simpl. destruct (k =? n) eqn:Hk; [discriminate|].
    simpl in Hb. now apply (IH st).
Qed.

End MatchFacts.

Section SearchFacts.

Lemma match_here_some (r : regex) (bef aft : text) (m : rmatch) :
  match_here r bef aft = Some m ->
  exists e, In e (matches r (MState bef aft [])) /\ m = mk_match bef aft e.
Proof.
  unfold match_here. destruct (matches r (MState bef aft [])) as [|e es]; [discriminate|].
  intros H. inversion H. exists e. split; [now left|reflexivity].
Qed.

(** A reported match starts at some split of the text and is a match state
    of the pattern there. *)
Lemma search_at_some (r : regex) : forall (aft bef : text) (m : rmatch),
  search_at r bef aft = Some m ->
  exists u v e, aft = u ++ v /\
    In e (matches r (MState (rev u ++ bef) v [])) /\
    m = mk_match (rev u ++ bef) v e.
Proof.
  induction aft as [|c aft IH]; intros bef m H; simpl in H.
  - destruct (match_here r bef []) eqn:Hm; [|discriminate]. inversion H; subst.
    apply match_here_some in Hm. destruct Hm as (e & He & ->).
    exists [], [], e. simpl. auto.
  - destruct (match_here r bef (c :: aft)) eqn:Hm.
    + inversion H; subst. apply match_here_some in Hm. destruct Hm as (e & He & ->).
      exists [], (c :: aft), e. simpl. auto.
    + destruct (IH _ _ H) as (u & v & e & -> & He & ->).
      exists (c :: u), v, e. simpl. rewrite <- app_assoc. simpl. auto.
Qed.

(** What a captured group of a reported match can hold. *)
Lemma search_group_lang (r : regex) (s : text) (m : rmatch) (n : nat) (t : text) :
  search r s = Some m -> group m n = Some t -> grp_lang r n t.
Proof.
  intros H Hg. apply search_at_some in H. destruct H as (u & v & e & _ & He & ->).
  apply matches_sound in He. destruct He as (w & new & _ & _ & Hc & Hnew).
  unfold group in Hg. simpl in Hg, Hc. rewrite Hc, app_nil_r in Hg.
  apply Hnew. clear - Hg.
  induction new as [|[k x] new IH]; simpl in Hg; [discriminate|].
  destruct (k =? n) eqn:Hk.
  - apply Nat.eqb_eq in Hk. inversion Hg; subst. now left.
  - right. auto.
Qed.

Lemma search_group_bound (r : regex) (s : text) (m : rmatch) (n : nat) :
  search r s = Some m -> binds r n = true ->
  exists t, group m n = Some t /\ grp_lang r n t.
Proof.
  intros H Hb. pose proof H as H'.
  apply search_at_some in H. destruct H as (u & v & e & _ & He & ->).
  pose proof (matches_binds _ _ _ _ Hb He) as Hl.
  unfold group. simpl.
  destruct (lookup n (caps e)) as [t|] eqn:Ht; [|contradiction].
  exists t. split; [reflexivity|].
  apply (search_group_lang r s _ n t H'). unfold group. simpl. exact Ht.
Qed.

Lemma match_group_lang (r : regex) (s : text) (m : rmatch) (n : nat) (t : text) :
  match_ r s = Some m -> group m n = Some t -> grp_lang r n t.
Proof.
  intros H Hg. apply match_here_some in H. destruct H as (e & He & ->).
  apply matches_sound in He. destruct He as (w & new & _ & _ & Hc & Hnew).
  unfold group in Hg. simpl in Hg, Hc. rewrite Hc, app_nil_r in Hg.
  apply Hnew. clear - Hg.
  induction new as [|[k x] new IH]; simpl in Hg; [discriminate|].
  destruct (k =? n) eqn:Hk.
  - apply Nat.eqb_eq in Hk. inversion Hg; subst. now left.
  - right. auto.
Qed.

End SearchFacts.

(** * Numbers read from captured groups *)

Section FloatFacts.

Lemma take_while_app (p : ascii -> bool) (u : text) (c : ascii) (v : text) :
  forallb p u = true -> p c = false ->
  take_while p (u ++ c :: v) = u /\ drop_while p (u ++ c :: v) = c :: v.
Proof.
  intros Hu Hc. induction u as [|a u IH]; simpl in *.
  - now rewrite Hc.
  - apply andb_true_iff in Hu. destruct Hu as [Ha Hu]. rewrite Ha.
    destruct (IH Hu) as [-> ->]. auto.
Qed.

Lemma take_while_all (p : ascii -> bool) (u : text) :
  forallb p u = true -> take_while p u = u /\ drop_while p u = [].
Proof.
  intros Hu. induction u as [|a u IH]; simpl in *; [auto|].
  apply andb_true_iff in Hu. destruct Hu as [Ha Hu]. rewrite Ha.
  destruct (IH Hu) as [-> ->]. auto.
Qed.

Lemma digits_value_nonneg (s : text) : (0 <= digits_value s)%Z.
Proof.
  unfold digits_value.
  assert (H : forall a, (0 <= a)%Z ->
            (0 <= fold_left (fun a c => (10 * a + digit_value c)%Z) s a)%Z).
  { induction s as [|c s IH]; intros a Ha; cbn [fold_left]; [assumption|].
    apply IH. unfold digit_value. lia. }
  apply H. lia.
Qed.

(** The value [float] returns on a string of digits. *)
Lemma float_of_digits (t : text) :
  lang (plus is_digit) t ->
  float_of t = Ok (inject_Z (digits_value t)).
Proof.
  simpl. intros (Hd & Hl & _). unfold float_of.
  destruct (take_while_all _ _ Hd) as [-> ->].
  destruct t; simpl in *; [lia|reflexivity].
Qed.

(** The exact decimal denoted by an amount [ddd.dd]. *)
Lemma float_of_amount (t : text) :
  lang amount t ->
  exists ip fp,
    t = ip ++ "."%char :: fp /\ forallb is_digit ip = true /\ ip <> [] /\
    forallb is_digit fp = true /\ length fp = 2 /\
    float_of t = Ok (Qred (digits_value (ip ++ fp) # 100)).
Proof.
  simpl. intros (ip & v & -> & (Hip & Hl & _) & (d & v2 & -> & (c & -> & Hc) & Hv2)).
  destruct Hv2 as (fp & e & -> & (Hfp & Hlo & Hhi) & ->).
  apply Ascii.eqb_eq in Hc. subst c. rewrite app_nil_r.
  exists ip, fp. assert (Hlen : length fp = 2) by lia.
  repeat split; try assumption.
  - destruct ip; simpl in Hl; [lia|discriminate].
  - unfold float_of. simpl.
    destruct (take_while_app is_digit ip "."%char fp Hip eq_refl) as [-> ->].
    rewrite Ascii.eqb_refl, Hfp. simpl.
    destruct ip; simpl in Hl; [lia|]. simpl. rewrite Hlen. reflexivity.
Qed.

Lemma Qred_nonneg (z : Z) (p : positive) : (0 <= z)%Z -> (0 <= Qred (z # p))%Q.
Proof.
  intros Hz. rewrite Qred_correct. unfold Qle. simpl. lia.
Qed.

Lemma float_of_amount_nonneg (t : text) :
  lang amount t -> exists q, float_of t = Ok q /\ (0 <= q)%Q.
Proof.
  intros H. destruct (float_of_amount t H) as (ip & fp & _ & _ & _ & _ & _ & ->).
  eexists. split; [reflexivity|]. apply Qred_nonneg, digits_value_nonneg.
Qed.

Lemma float_of_digits_nonneg (t : text) :
  lang (plus is_digit) t -> exists q, float_of t = Ok q /\ (0 <= q)%Q.
Proof.
  intros H. rewrite (float_of_digits t H). eexists. split; [reflexivity|].
  unfold Qle. simpl. pose proof (digits_value_nonneg t). lia.
Qed.

End FloatFacts.

(** * Line items *)

Ltac grp_inv H :=
  match type of H with
  | False => contradiction
  | _ \/ _ => destruct H as [H|H]; grp_inv H
  | ?a = ?b /\ _ => first [ (destruct H as [? _]; discriminate) | destruct H as [_ H] ]
  | _ => idtac
  end.

Ltac bound_group Hs n t Hg L :=
  let H := fresh in
  pose proof (search_group_bound _ _ _ n Hs eq_refl) as H;
  destruct H as (t & Hg & L); simpl in L; grp_inv L.

Section ItemFacts.

Lemma Qltb_lt (a b : Q) : Qltb a b = true -> (a < b)%Q.
Proof.
  unfold Qltb. intros H. apply negb_true_iff in H.
  apply Qnot_le_lt. intros Hle. apply Qle_bool_iff in Hle. congruence.
Qed.


(** The three ways the scan loop treats a line: nothing appended, an
    explicit-quantity item, or a trailing-price item. *)
Lemma scan_item_of_line_cases (line : text) :
  ReceiptProcessor.item_of_line line = Ok None \/
  (exists m q u nm,
     search ReceiptProcessor.quantity_pattern line = Some m /\
     (0 <= q)%Q /\ (0 <= u)%Q /\
     ReceiptProcessor.item_of_line line = Ok (Some (Item nm q u (fmul q u)))) \/
  (exists m p nm,
     search ReceiptProcessor.quantity_pattern line = None /\
     search ReceiptProcessor.price_pattern line = Some m /\
     (0 < p)%Q /\
     ReceiptProcessor.item_of_line line = Ok (Some (Item nm 1 p p))).
Proof.
  unfold ReceiptProcessor.item_of_line.
  destruct (any_in _ _); [now left|].
  destruct (search ReceiptProcessor.quantity_pattern line) as [m|] eqn:Hq.
  - bound_group Hq 1 t1 Hg1 L1. bound_group Hq 2 t2 Hg2 L2.
    destruct (float_of_digits_nonneg t1 L1) as (q & Hfq & Hq0).
    destruct (float_of_amount_nonneg t2 L2) as (u & Hfu & Hu0).
    unfold float_group. rewrite Hg1, Hg2, Hfq, Hfu. cbn [bind].
    destruct (negb _ && _); [|now left].
    right. left. exists m, q, u. eexists. repeat split; try assumption.
  - destruct (search ReceiptProcessor.price_pattern line) as [m|] eqn:Hp; [|now left].
    bound_group Hp 1 t1 Hg1 L1.
    destruct (float_of_amount_nonneg t1 L1) as (p & Hfp & Hp0).
    unfold float_group. rewrite Hg1, Hfp. cbn [bind].
    destruct (negb _ && _ && Qltb 0 p) eqn:Hc; [|now left].
    apply andb_true_iff in Hc. destruct Hc as [_ Hc]. apply Qltb_lt in Hc.
    right. right. exists m, p. eexists. repeat split; try assumption.
Qed.

(** The ways the email loop treats a line. *)
Lemma email_item_of_line_cases (line : text) :
  EmailReceiptParser.item_of_line line = Ok None \/
  (exists m q u0 t nm,
     search EmailReceiptParser.pattern1 (strip line) = Some m /\
     (0 <= q)%Q /\ (0 <= u0)%Q /\ (0 <= t)%Q /\
     (group m 3 = None -> u0 = 0%Q) /\
     EmailReceiptParser.item_of_line line =
       (u <- (if Qeq_bool u0 0 then fdiv t q else Ok u0) ;;
        Ok (Some (Item nm q u t)))) \/
  (exists m p nm,
     search EmailReceiptParser.pattern1 (strip line) = None /\
     search EmailReceiptParser.pattern2 (strip line) = Some m /\
     (0 < p)%Q /\ (p < 500)%Q /\
     EmailReceiptParser.item_of_line line = Ok (Some (Item nm 1 p p))).
Proof.
  unfold EmailReceiptParser.item_of_line.
  destruct (is_nil _ || _); [now left|].
  destruct (any_in _ _); [now left|].
  destruct (search EmailReceiptParser.pattern1 (strip line)) as [m|] eqn:H1.
  - bound_group H1 1 t1 Hg1 L1. bound_group H1 2 t2 Hg2 L2.
    bound_group H1 4 t4 Hg4 L4.
    destruct (float_of_digits_nonneg t1 L1) as (q & Hfq & Hq0).
    destruct (float_of_amount_nonneg t4 L4) as (t & Hft & Ht0).
    assert (Hu : exists u0, (0 <= u0)%Q /\ (group m 3 = None -> u0 = 0%Q) /\
              match group m 3 with
              | Some (c :: x) => float_of (c :: x)
              | _ => Ok 0%Q
              end = Ok u0).
    { destruct (group m 3) as [[|c x]|] eqn:Hg3.
      - exists 0%Q. split; [apply Qle_refl|split; reflexivity].
      - pose proof (search_group_lang _ _ _ _ _ H1 Hg3) as L3.
        simpl in L3. grp_inv L3.
        destruct (float_of_amount_nonneg _ L3) as (u & Hfu & Hu0).
        exists u. split; [assumption|split; [discriminate|assumption]].
      - exists 0%Q. split; [apply Qle_refl|split; reflexivity]. }
    destruct Hu as (u0 & Hu0 & Hnone & Hfu).
    unfold float_group, group_text. rewrite Hg1, Hg2, Hg4, Hfq, Hft. cbn [bind].
    rewrite Hfu. cbn [bind].
    right. left. exists m, q, u0, t. eexists. repeat split; try assumption.
  - destruct (search EmailReceiptParser.pattern2 (strip line)) as [m|] eqn:H2; [|now left].
    bound_group H2 1 t1 Hg1 L1. bound_group H2 2 t2 Hg2 L2.
    destruct (float_of_amount_nonneg t2 L2) as (p & Hfp & Hp0).
    unfold float_group, group_text. rewrite Hg1, Hg2, Hfp. cbn [bind].
    destruct (_ && Qltb 0 p && Qltb p 500) eqn:Hc; [|now left].
    apply andb_true_iff in Hc. destruct Hc as [Hc Hc2].
    apply andb_true_iff in Hc. destruct Hc as [_ Hc1].
    apply Qltb_lt in Hc1, Hc2.
    right. right. exists m, p. eexists. repeat split; try assumption.
Qed.

End ItemFacts.

Section LoopFacts.

Lemma scan_loop_items : forall (lines : list text) (acc : list item),
  exists items,
    ReceiptProcessor.extract_loop acc lines = Ok items /\
    forall it, In it items ->
      In it acc \/
      exists line, In line lines /\ ReceiptProcessor.item_of_line line = Ok (Some it).
Proof.
  induction lines as [|line lines IH]; intros acc; simpl.
  - exists acc. auto.
  - assert (H : exists o, ReceiptProcessor.item_of_line line = Ok o).
    { destruct (scan_item_of_line_cases line) as [H|[H|H]].
      - eauto.
      - destruct H as (m & q & u & nm & _ & _ & _ & H). eauto.
      - destruct H as (m & p & nm & _ & _ & _ & H). eauto. }
    destruct H as (o & Ho). rewrite Ho. cbn [bind].
    destruct (IH (match o with Some i => acc ++ [i] | None => acc end))
      as (items & Hi & Hin).
    exists items. split; [assumption|]. intros it Hit.
    destruct (Hin it Hit) as [Hacc|(l & Hl & Hit')].
    + destruct o as [i|]; [|now left].
      apply in_app_or in Hacc. destruct Hacc as [Hacc|[<-|[]]]; [now left|].
      right. exists line. auto.
    + right. exists l. auto.
Qed.



Lemma Ok_Some_inj {A : Type} (a b : A) : Ok (Some a) = Ok (Some b) -> a = b.
Proof. congruence. Qed.



End LoopFacts.

(** * Where the captured numbers lie *)

Section CapturedNumbers.













End CapturedNumbers.

(** * Properties of the line items *)

Section ItemProperties.

Lemma email_item_of_line_total (line : text) :
  (exists o, EmailReceiptParser.item_of_line line = Ok o) \/
  EmailReceiptParser.item_of_line line = Raise ZeroDivisionError.
Proof.
  destruct (email_item_of_line_cases line) as [H|[H|H]].
  - left. eauto.
  - destruct H as (m & q & u0 & t & nm & _ & _ & _ & _ & _ & H). rewrite H.
    destruct (Qeq_bool u0 0); [|left; eexists; reflexivity].
    unfold fdiv. destruct (Qeq_bool q 0); [now right|left; eexists; reflexivity].
  - destruct H as (m & p & nm & _ & _ & _ & _ & H). left. eauto.
Qed.

Lemma email_loop_total : forall (lines : list text) (acc : list item),
  (exists items, EmailReceiptParser.extract_loop acc lines = Ok items) \/
  EmailReceiptParser.extract_loop acc lines = Raise ZeroDivisionError.
Proof.
  induction lines as [|line lines IH]; intros acc; simpl.
  - left. eauto.
  - destruct (email_item_of_line_total line) as [(o & ->)| ->]; cbn [bind].
    + apply IH.
    + now right.
Qed.

(** C4 (code defect).  The scan-path item loop returns normally on every
    list of lines, and the only exception the email-path loop can raise is
    [ZeroDivisionError]; it does raise it: on the one-line body
    [0 x Milk 5.00] the explicit-quantity pattern captures quantity [0]
    and no unit price, and [total_price / quantity] divides by zero. *)
Theorem C4_email_division_by_zero :
  EmailReceiptParser._extract_items_from_email
    (str "0 x Milk 5.00") (str "Unknown Store") = Raise ZeroDivisionError /\
  (forall lines, exists items, line_items Scan lines = Ok items) /\
  (forall lines,
     (exists items, line_items Email lines = Ok items) \/
     line_items Email lines = Raise ZeroDivisionError).
Proof.
  split; [vm_compute; reflexivity|]. split.
  - intros lines. destruct (scan_loop_items lines []) as (items & H & _).
    exists items. exact H.
  - intros lines. apply email_loop_total.
Qed.


End ItemProperties.

(** * The end-to-end scenario and the store identifier *)

Section ScenarioProperties.

(** C1, counterexample.  The records the scan path emits for the scenario
    are not the two records of the claim: the first one is classified
    [Other], since the keyword [banana] does not occur as a whole word in
    [bananas]. *)
Lemma C1_counterexample :
  ~ (exists items,
       ReceiptProcessor._extract_items scenario_lines = Ok items /\
       Forall2 same_record (item_records items)
         [ MkItemRecord (str "Bananas") 1 1.99 1.99 "Produce";
           MkItemRecord (str "Milk") 2 3.99 7.98 "Dairy & Eggs" ]).
Proof.
  intros (items & H & HF).
  assert (Hi : ReceiptProcessor._extract_items scenario_lines
               = Ok [ Item (str "Bananas") 1 1.99 1.99;
                      Item (str "Milk 798") 2 3.99 (Qred 7.98) ])
    by (vm_compute; reflexivity).
  rewrite Hi in H. injection H as <-.
  inversion HF as [|a b l l' Hab _]; subst.
  destruct Hab as (_ & _ & _ & _ & Hc). vm_compute in Hc. discriminate.
Qed.

(** C1 (amended).  For the scenario document the Line-Item Extractor
    discards the third line through the noise filter and emits exactly two
    records in line order: name [Bananas], quantity 1.0, unit price 1.99,
    total price 1.99, category [Other]; then a record of quantity 2.0, unit
    price 3.99, total price 7.98 and category [Dairy & Eggs].  The Totals
    Extractor over the same text returns total amount 9.97. *)
Theorem C1_scan_scenario :
  any_in ReceiptProcessor.skip_words (str "TOTAL  9.97") = true /\
  (exists i1 i2,
     ReceiptProcessor._extract_items scenario_lines = Ok [i1; i2] /\
     same_record (item_record i1)
       (MkItemRecord (str "Bananas") 1 1.99 1.99 "Other") /\
     (ir_quantity (item_record i2) == 2)%Q /\
     (ir_unit_price (item_record i2) == 3.99)%Q /\
     (ir_total_price (item_record i2) == 7.98)%Q /\
     ir_category (item_record i2) = "Dairy & Eggs") /\
  (exists tax,
     ReceiptProcessor._extract_totals (unlines scenario_lines) = Ok (9.97%Q, tax)).
Proof.
  split; [vm_compute; reflexivity|]. split.
  - do 2 eexists. split; [vm_compute; reflexivity|].
    unfold same_record. repeat split; vm_compute; reflexivity.
  - eexists. vm_compute. reflexivity.
Qed.

End ScenarioProperties.

(** * The category classifier *)

Section ClassifierFacts.

Lemma starts_with_iff (w s : text) :
  starts_with w s = true <-> exists rest, s = w ++ rest.
Proof.
  revert s. induction w as [|a w IH]; intros s; simpl.
  - split; [intros _; now exists s|reflexivity].
  - destruct s as [|c s].
    + split; [discriminate|]. intros (rest & H). discriminate.
    + rewrite andb_true_iff, IH, Ascii.eqb_eq. split.
      * intros (-> & rest & ->). now exists rest.
      * intros (rest & H). inversion H; subst. split; [reflexivity|now exists rest].
Qed.

Lemma skipn_length_app (w rest : text) : skipn (length w) (w ++ rest) = rest.
Proof. induction w; simpl; auto. Qed.


(** [re.search] fails exactly when no position has a match. *)
Lemma search_at_none (r : regex) : forall (aft bef : text),
  search_at r bef aft = None <->
  forall u v, aft = u ++ v -> matches r (MState (rev u ++ bef) v []) = [].
Proof.
  induction aft as [|c aft IH]; intros bef; simpl; unfold match_here.
  - destruct (matches r (MState bef [] [])) as [|e es] eqn:Hm.
    + split; [|reflexivity]. intros _ u v Huv.
      symmetry in Huv. apply app_eq_nil in Huv. destruct Huv; subst. exact Hm.
    + split; [discriminate|]. intros H. specialize (H [] [] eq_refl).
      simpl in H. congruence.
  - destruct (matches r (MState bef (c :: aft) [])) as [|e es] eqn:Hm.
    + rewrite IH. split.
      * intros H u v Huv. destruct u as [|x u]; simpl in Huv.
        -- subst v. exact Hm.
        -- inversion Huv; subst. simpl. rewrite <- app_assoc. now apply H.
      * intros H u v Huv. specialize (H (c :: u) v). simpl in H.
        rewrite <- app_assoc in H. apply H. now rewrite Huv.
    + split; [discriminate|]. intros H. specialize (H [] (c :: aft) eq_refl).
      simpl in H. congruence.
Qed.














End ClassifierFacts.

(** * Totals *)

Section TotalsProperties.

Lemma filter_all (p : ascii -> bool) (u : text) :
  forallb p u = true -> filter p u = u.
Proof.
  induction u as [|c u IH]; simpl; intros H; [reflexivity|].
  apply andb_true_iff in H. destruct H as [Hc Hu]. rewrite Hc. now rewrite IH.
Qed.

Lemma float_of_amount_value (g : text) :
  lang amount g -> float_of g = Ok (amount_value g).
Proof.
  intros H. destruct (float_of_amount g H) as (ip & fp & -> & Hip & _ & Hfp & _ & ->).
  unfold amount_value. rewrite filter_app. cbn [filter].
  replace (is_digit "."%char) with false by reflexivity.
  now rewrite (filter_all _ _ Hip), (filter_all _ _ Hfp).
Qed.

(** Reading group 1 of a match never fails and gives the captured amount. *)
Lemma float_group_amount (r : regex) (t : text) (m : rmatch) :
  amount_group r -> search r t = Some m ->
  float_group m 1 = Ok (captured_amount m).
Proof.
  intros [Hb Hl] Hs.
  destruct (search_group_bound r t m 1 Hs Hb) as (g & Hg & L).
  unfold float_group, captured_amount. rewrite Hg.
  apply float_of_amount_value. now apply Hl.
Qed.

Lemma first_amount_spec (r : regex) (t : text) :
  amount_group r ->
  ReceiptProcessor.first_amount r t = Ok (leftmost_amount r t).
Proof.
  intros Hr. unfold ReceiptProcessor.first_amount, leftmost_amount.
  destruct (search r t) as [m|] eqn:Hs; [|reflexivity].
  now apply (float_group_amount r t).
Qed.

Lemma first_pattern_amount_spec (rs : list regex) (t : text) :
  Forall amount_group rs ->
  EmailReceiptParser.first_pattern_amount rs t = Ok (list_order_amount rs t).
Proof.
  unfold list_order_amount.
  induction rs as [|r rs IH]; intros HF; simpl; [reflexivity|].
  inversion HF as [|? ? Hr HF']; subst.
  unfold pattern_matches at 1.
  destruct (search r t) as [m|] eqn:Hs.
  - unfold leftmost_amount. rewrite Hs. now apply (float_group_amount r t).
  - now apply IH.
Qed.

Ltac amount_group_tac :=
  split; [reflexivity|intros g L; simpl in L; grp_inv L; exact L].

Lemma scan_total_group : amount_group ReceiptProcessor.total_pattern.
Proof. amount_group_tac. Qed.

Lemma scan_tax_group : amount_group ReceiptProcessor.tax_pattern.
Proof. amount_group_tac. Qed.

Lemma email_total_groups : Forall amount_group EmailReceiptParser.total_patterns.
Proof. repeat (apply Forall_cons; [amount_group_tac|]). apply Forall_nil. Qed.

Lemma email_tax_groups : Forall amount_group EmailReceiptParser.tax_patterns.
Proof. repeat (apply Forall_cons; [amount_group_tac|]). apply Forall_nil. Qed.

Lemma scan_totals_spec (t : text) :
  ReceiptProcessor._extract_totals t
  = Ok (leftmost_amount ReceiptProcessor.total_pattern (lower t),
        leftmost_amount ReceiptProcessor.tax_pattern (lower t)).
Proof.
  unfold ReceiptProcessor._extract_totals.
  rewrite (first_amount_spec _ _ scan_total_group).
  rewrite (first_amount_spec _ _ scan_tax_group). reflexivity.
Qed.

(** C6, counterexample.  In the email body [Amount due: 5.00 / Total: 7.00]
    the first occurrence of the total family in document order is
    [amount due: 5.00], but the extractor returns 7.00: its first pattern,
    [total], matches further down and the later patterns are not tried. *)
Lemma C6_counterexample :
  ~ (forall body : text,
       exists tax,
         EmailReceiptParser._extract_totals_from_email body
         = Ok (document_order_amount EmailReceiptParser.total_patterns (lower body),
               tax)).
Proof.
  intros H.
  destruct (H (str "Amount due: 5.00" ++ newline :: str "Total: 7.00")) as (tax & Ht).
  vm_compute in Ht. discriminate.
Qed.

(** C6 (amended).  Both Totals Extractors search the whole lower-cased text
    and never fail.  The scan path has one total pattern
    ([total|amount due|balance] before a currency-shaped number) and one tax
    pattern ([tax|sales tax]); each yields the amount of its leftmost match.
    The email path has a list of total patterns ([total] with an optional
    [order], [amount due|charged], [grand total]) and of tax patterns ([tax]
    with an optional [sales], [estimated tax]); each list yields the amount
    of the leftmost match of its first pattern, in list order, that matches
    anywhere.  A family without a match yields 0.0.  The text
    [TOTAL: $45.67] yields total 45.67 and tax 0.0 on both paths. *)
Theorem C6_totals_extractor :
  (forall t : text,
     ReceiptProcessor._extract_totals t
     = Ok (leftmost_amount ReceiptProcessor.total_pattern (lower t),
           leftmost_amount ReceiptProcessor.tax_pattern (lower t))) /\
  (forall body : text,
     EmailReceiptParser._extract_totals_from_email body
     = Ok (list_order_amount EmailReceiptParser.total_patterns (lower body),
           list_order_amount EmailReceiptParser.tax_patterns (lower body))) /\
  ReceiptProcessor._extract_totals (str "TOTAL: $45.67") = Ok (45.67%Q, 0%Q) /\
  EmailReceiptParser._extract_totals_from_email (str "TOTAL: $45.67")
    = Ok (45.67%Q, 0%Q).
Proof.
  split; [exact scan_totals_spec|]. split.
  - intros body. unfold EmailReceiptParser._extract_totals_from_email.
    rewrite (first_pattern_amount_spec _ _ email_total_groups).
    rewrite (first_pattern_amount_spec _ _ email_tax_groups). reflexivity.
  - split; vm_compute; reflexivity.
Qed.

End TotalsProperties.

(** * Dates *)

Section DateProperties.

(** The only exception [strptime] raises is [ValueError]. *)
Lemma strptime_exn (ds : text) (f : string) (e : exn) :
  Strptime.strptime ds f = Raise e -> e = ValueError.
Proof.
  unfold Strptime.strptime. intros H.
  destruct (Strptime.pattern false (str f)); [|congruence].
  destruct (match_ _ ds); [|congruence].
  destruct (negb _); [congruence|].
  cbv zeta in H.
  match type of H with
  | match ?m with Some _ => _ | None => _ end = _ => destruct m
  end; [|congruence].
  match type of H with
  | (if ?b then _ else _) = _ => destruct b
  end; congruence.
Qed.

Lemma try_formats_spec (fmts : list string) (ds : text) :
  ReceiptProcessor.try_formats fmts ds = Ok (first_parse fmts ds).
Proof.
  induction fmts as [|f fmts IH]; simpl; [reflexivity|].
  destruct (Strptime.strptime ds f) as [d|e] eqn:Hp; simpl; [reflexivity|].
  rewrite (strptime_exn _ _ _ Hp). exact IH.
Qed.

Lemma try_patterns_spec (now : datetime) (ps : list regex) (t : text) :
  Forall (fun r => binds r 1 = true) ps ->
  ReceiptProcessor.try_patterns now ps t = Ok (date_spec now ps t).
Proof.
  induction ps as [|r ps IH]; intros HF;
    cbn [ReceiptProcessor.try_patterns date_spec]; [reflexivity|].
  inversion HF as [|? ? Hb HF']; subst.
  unfold pattern_date.
  destruct (search r t) as [m|] eqn:Hs; [|now apply IH].
  destruct (search_group_bound r t m 1 Hs Hb) as (g & Hg & _).
  unfold group_text. rewrite Hg. cbn [bind].
  rewrite try_formats_spec. cbn [bind].
  destruct (first_parse ReceiptProcessor.date_formats g); [reflexivity|now apply IH].
Qed.

Lemma date_patterns_bind :
  Forall (fun r => binds r 1 = true) ReceiptProcessor.date_patterns.
Proof. repeat (apply Forall_cons; [reflexivity|]). apply Forall_nil. Qed.

Lemma extract_date_spec (now : datetime) (t : text) :
  ReceiptProcessor._extract_date now t
  = Ok (date_spec now ReceiptProcessor.date_patterns (lower t)).
Proof. apply try_patterns_spec, date_patterns_bind. Qed.

(** C8, counterexample.  In the text [2024-01-15] the first pattern that
    matches is the MM/DD/YYYY-like one, on the substring [24-01-15], which
    parses under none of the formats; the extractor nevertheless does not
    return the current time but goes on to the YYYY-MM-DD-like pattern and
    returns 2024-01-15. *)
Lemma C8_counterexample :
  ~ (forall (now : datetime) (t : text),
       ReceiptProcessor._extract_date now t
       = Ok (date_first_match_only now ReceiptProcessor.date_patterns (lower t))).
Proof.
  intros H. specialize (H (DateTime 2026 11 3 9 30 0) (str "2024-01-15")).
  vm_compute in H. discriminate.
Qed.

(** C8 (amended).  For every scan text the Date Extractor never fails: it
    tries the three date-shaped patterns in order against the lower-cased
    text; for each pattern that matches, it parses the matched substring
    against the ordered format list and returns the first successful parse;
    when the substring parses under none of the formats it goes on to the
    next pattern; when no pattern matches, or no matching pattern's
    substring parses, it returns the current time.  Input containing
    [01/15/2024] parses to 2024-01-15 under the MM/DD/YYYY rule. *)
Theorem C8_date_extractor :
  (forall (now : datetime) (t : text),
     ReceiptProcessor._extract_date now t
     = Ok (date_spec now ReceiptProcessor.date_patterns (lower t))) /\
  (forall now : datetime,
     ReceiptProcessor._extract_date now (str "Date: 01/15/2024 10:32")
     = Ok (DateTime 2024 1 15 0 0 0)) /\
  Strptime.strptime (str "01/15/2024") "%m/%d/%Y" = Ok (DateTime 2024 1 15 0 0 0) /\
  (forall now : datetime,
     ReceiptProcessor._extract_date now (str "no date on this receipt") = Ok now) /\
  (forall now : datetime,
     ReceiptProcessor._extract_date now (str "02/30/2024") = Ok now).
Proof.
  split; [exact extract_date_spec|].
  split; [intros now; rewrite extract_date_spec; vm_compute; reflexivity|].
  split; [vm_compute; reflexivity|].
  split; intros now; rewrite extract_date_spec; vm_compute; reflexivity.
Qed.

End DateProperties.

(** * The scan-path receipt parser *)

Section ParserProperties.


Lemma scan_loop_nothing : forall (lines : list text) (acc : list item),
  (forall line, In line lines -> ReceiptProcessor.item_of_line line = Ok None) ->
  ReceiptProcessor.extract_loop acc lines = Ok acc.
Proof.
  induction lines as [|line lines IH]; intros acc H; simpl; [reflexivity|].
  rewrite (H line (or_introl eq_refl)). cbn [bind]. apply IH.
  intros l Hl. apply H. now right.
Qed.

Lemma scan_item_nothing (line : text) :
  search ReceiptProcessor.quantity_pattern line = None ->
  search ReceiptProcessor.price_pattern line = None ->
  ReceiptProcessor.item_of_line line = Ok None.
Proof.
  intros Hq Hp. unfold ReceiptProcessor.item_of_line. rewrite Hq, Hp.
  now destruct (any_in _ _).
Qed.



End ParserProperties.

(** * Substitution *)

Section SubFacts.

Variable r : regex.
Variable repl : text.

Lemma sub_walk_skip (k : nat) : forall (bef aft : text),
  k <= length aft ->
  sub_walk r repl k bef aft
  = sub_walk r repl 0 (rev (firstn k aft) ++ bef) (skipn k aft).
Proof.
  induction k as [|k IH]; intros bef aft Hk; [reflexivity|].
  destruct aft as [|c aft]; simpl in Hk; [lia|].
  cbn [firstn skipn rev]. rewrite <- app_assoc. cbn [app].
  rewrite <- IH by lia. reflexivity.
Qed.

Lemma sub_walk_no_match (bef : text) (c : ascii) (aft : text) :
  matches r (MState bef (c :: aft) []) = [] ->
  sub_walk r repl 0 bef (c :: aft) = c :: sub_walk r repl 0 (c :: bef) aft.
Proof. intros H. cbn [sub_walk]. rewrite H. reflexivity. Qed.

Lemma sub_walk_no_match_nil (bef : text) :
  matches r (MState bef [] []) = [] -> sub_walk r repl 0 bef [] = [].
Proof. intros H. cbn [sub_walk]. rewrite H. reflexivity. Qed.

(** A non-empty first match is replaced and passed over. *)
Lemma sub_walk_match (bef aft : text) (e : mstate) (es : list mstate) (w : text) :
  matches r (MState bef aft []) = e :: es ->
  aft = w ++ after e -> w <> [] ->
  sub_walk r repl 0 bef aft
  = repl ++ sub_walk r repl 0 (rev w ++ bef) (after e).
Proof.
  intros Hm Ha Hw.
  destruct w as [|c w]; [congruence|]. subst aft.
  cbn [app] in Hm. cbn [sub_walk app]. rewrite Hm.
  replace (length (c :: w ++ after e) - length (after e)) with (S (length w))
    by (cbn [length]; rewrite length_app; lia).
  rewrite sub_walk_skip by (rewrite length_app; lia).
  rewrite firstn_app, firstn_all, Nat.sub_diag, skipn_length_app.
  cbn [firstn rev]. rewrite app_nil_r, <- app_assoc. reflexivity.
Qed.

End SubFacts.

Section RepFacts.

Lemma matches_seq (r1 r2 : regex) (st : mstate) :
  matches (Seq r1 r2) st = flat_map (matches r2) (matches r1 st).
Proof. reflexivity. Qed.

Lemma matches_alt (r1 r2 : regex) (st : mstate) :
  matches (Alt r1 r2) st = matches r1 st ++ matches r2 st.
Proof. reflexivity. Qed.

Lemma matches_grp (n : nat) (r : regex) (st : mstate) :
  matches (Grp n r) st
  = map (fun st' => set_cap n (consumed st st') st') (matches r st).
Proof. reflexivity. Qed.

Lemma matches_eps (st : mstate) : matches Eps st = [st].
Proof. reflexivity. Qed.

Lemma matches_bol_start (a : text) (c : list (nat * text)) :
  matches Bol (MState [] a c) = [MState [] a c].
Proof. reflexivity. Qed.

Lemma matches_bol_later (x : ascii) (b a : text) (c : list (nat * text)) :
  matches Bol (MState (x :: b) a c) = [].
Proof. reflexivity. Qed.

Lemma advance_app (w : text) : forall (b a : text) (c : list (nat * text)),
  advance (length w) (MState b (w ++ a) c) = MState (rev w ++ b) a c.
Proof.
  induction w as [|x w IH]; intros b a c; [reflexivity|].
  cbn [length advance after app before caps]. rewrite IH.
  cbn [rev]. now rewrite <- app_assoc.
Qed.

Lemma run_split (p : ascii -> bool) (s : text) :
  s = take_while p s ++ drop_while p s /\
  length (take_while p s) = run_length p s.
Proof.
  induction s as [|c s [IH1 IH2]]; simpl; [auto|].
  destruct (p c); simpl; [|auto]. rewrite <- IH1, IH2. auto.
Qed.

(** Moving over the whole run of a class. *)
Lemma advance_run (p : ascii -> bool) (b a : text) (c : list (nat * text)) :
  advance (run_length p a) (MState b a c)
  = MState (rev (take_while p a) ++ b) (drop_while p a) c.
Proof.
  destruct (run_split p a) as [H1 H2].
  rewrite <- H2. rewrite H1 at 2. apply advance_app.
Qed.

(** A greedy quantifier first takes the whole run. *)
Lemma matches_greedy (lo : nat) (p : ascii -> bool) (st : mstate) :
  lo <= run_length p (after st) ->
  matches (Rep true lo None p) st
  = advance (run_length p (after st)) st
      :: map (fun n => advance n st)
             (rev (seq lo (run_length p (after st) - lo))).
Proof.
  intros H. cbn [matches]. unfold counts.
  replace (S (run_length p (after st)) - lo)
    with (S (run_length p (after st) - lo)) by lia.
  rewrite seq_S, rev_app_distr. cbn [rev app map].
  replace (lo + (run_length p (after st) - lo)) with (run_length p (after st)) by lia.
  reflexivity.
Qed.

Lemma matches_rep_short (g : bool) (lo : nat) (p : ascii -> bool) (st : mstate) :
  run_length p (after st) < lo -> matches (Rep g lo None p) st = [].
Proof.
  intros H. cbn [matches]. unfold counts.
  replace (S (run_length p (after st)) - lo) with 0 by lia.
  now destruct g.
Qed.

End RepFacts.

(** * The steps of the name normalisers *)

Section NormaliserSteps.

Lemma drop_while_length (p : ascii -> bool) (s : text) :
  length (drop_while p s) <= length s.
Proof. induction s as [|c s IH]; simpl; [lia|]. destruct (p c); simpl; lia. Qed.

Lemma collapse_in_space (s : text) :
  collapse_from true s = collapse_from false (drop_while is_space s).
Proof.
  induction s as [|c s IH]; [reflexivity|]. cbn [collapse_from drop_while].
  destruct (is_space c) eqn:Hc; [exact IH|].
  cbn [collapse_from]. now rewrite Hc.
Qed.

(** [re.sub(r'\s+', ' ', s)] collapses every run of whitespace. *)
Lemma sub_spaces (s : text) :
  sub (plus is_space) (str " ") s = collapse_ws s.
Proof.
  unfold sub, collapse_ws. generalize (@nil ascii) as bef.
  remember (length s) as n eqn:Hn.
  assert (Hle : length s <= n) by lia. clear Hn. revert s Hle.
  induction n as [|n IH]; intros s Hle bef.
  - destruct s; [|simpl in Hle; lia].
    apply sub_walk_no_match_nil. reflexivity.
  - destruct s as [|c s]; [apply sub_walk_no_match_nil; reflexivity|].
    cbn [length] in Hle.
    destruct (is_space c) eqn:Hc.
    + assert (Hrun : 1 <= run_length is_space (after (MState bef (c :: s) []))).
      { cbn [after run_length]. rewrite Hc. lia. }
      pose proof (matches_greedy 1 is_space _ Hrun) as Hm.
      cbn [after] in Hm. rewrite advance_run in Hm.
      rewrite (sub_walk_match _ _ _ _ _ _ (take_while is_space (c :: s)) Hm).
      * cbn [after]. rewrite IH.
        -- cbn [collapse_from drop_while]. rewrite Hc.
           now rewrite collapse_in_space.
        -- pose proof (drop_while_length is_space s) as Hd.
           cbn [drop_while]. rewrite Hc. lia.
      * cbn [after]. apply run_split.
      * cbn [take_while]. rewrite Hc. discriminate.
    + rewrite sub_walk_no_match.
      * cbn [collapse_from]. rewrite Hc. f_equal. apply IH. lia.
      * apply matches_rep_short. cbn [after run_length]. rewrite Hc. lia.
Qed.

Lemma keep_not_special (c : ascii) : keep_char c = negb (ReceiptProcessor.special c).
Proof. unfold keep_char, ReceiptProcessor.special. now rewrite negb_involutive. Qed.

(** [re.sub(r'[^\w\s-]', '', s)] deletes every other character. *)
Lemma sub_special (s : text) :
  sub (Cls ReceiptProcessor.special) [] s = filter keep_char s.
Proof.
  unfold sub.
  enough (H : forall bef,
            sub_walk (Cls ReceiptProcessor.special) [] 0 bef s = filter keep_char s)
    by apply H.
  induction s as [|c s IH]; intros bef.
  - apply sub_walk_no_match_nil. reflexivity.
  - cbn [filter]. rewrite keep_not_special.
    destruct (ReceiptProcessor.special c) eqn:Hc; cbn [negb].
    + rewrite (sub_walk_match _ _ _ _ (MState (c :: bef) s []) [] [c]).
      * cbn [after app]. apply IH.
      * cbn [matches after]. rewrite Hc. reflexivity.
      * reflexivity.
      * discriminate.
    + rewrite sub_walk_no_match.
      * f_equal. apply IH.
      * cbn [matches after]. now rewrite Hc.
Qed.

Lemma leading_later (c : ascii) (bef aft : text) :
  sub_walk EmailReceiptParser.leading_pattern [] 0 (c :: bef) aft = aft.
Proof.
  revert c bef. induction aft as [|x aft IH]; intros c bef.
  - apply sub_walk_no_match_nil. reflexivity.
  - rewrite sub_walk_no_match; [f_equal; apply IH|].
    unfold EmailReceiptParser.leading_pattern, seq_of. cbn [fold_right].
    now rewrite matches_seq, matches_bol_later.
Qed.

(** [re.sub(r'^\d+\s*', '', s)] removes a leading code. *)
Lemma sub_leading (s : text) :
  sub EmailReceiptParser.leading_pattern [] s = strip_leading_code s.
Proof.
  unfold sub, strip_leading_code.
  destruct s as [|c s]; [apply sub_walk_no_match_nil; reflexivity|].
  destruct (is_digit c) eqn:Hc.
  - assert (Hrun : 1 <= run_length is_digit (after (MState [] (c :: s) []))).
    { cbn [after run_length]. rewrite Hc. lia. }
    pose proof (matches_greedy 1 is_digit _ Hrun) as Hd.
    cbn [after] in Hd. rewrite advance_run in Hd.
    pose proof (matches_greedy 0 is_space
                  (MState (rev (take_while is_digit (c :: s)) ++ [])
                          (drop_while is_digit (c :: s)) [])
                  (Nat.le_0_l _)) as Hs.
    cbn [after] in Hs. rewrite advance_run in Hs.
    assert (Hm : exists es,
              matches EmailReceiptParser.leading_pattern (MState [] (c :: s) [])
              = MState
                  (rev (take_while is_space (drop_while is_digit (c :: s)))
                     ++ rev (take_while is_digit (c :: s)) ++ [])
                  (drop_while is_space (drop_while is_digit (c :: s))) [] :: es).
    { unfold EmailReceiptParser.leading_pattern, seq_of. cbn [fold_right].
      change (plus is_digit) with (Rep true 1 None is_digit).
      change (star is_space) with (Rep true 0 None is_space).
      rewrite matches_seq, matches_bol_start. cbn [flat_map]. rewrite app_nil_r.
      rewrite matches_seq, Hd. cbn [flat_map].
      rewrite matches_seq, Hs. cbn [flat_map app]. rewrite matches_eps.
      cbn [app]. eexists. reflexivity. }
    destruct Hm as (es & Hm).
    rewrite (sub_walk_match _ _ _ _ _ es
               (take_while is_digit (c :: s)
                  ++ take_while is_space (drop_while is_digit (c :: s))) Hm).
    + cbn [after app].
      destruct (rev (take_while is_digit (c :: s)
                       ++ take_while is_space (drop_while is_digit (c :: s))) ++ [])
        as [|x bef] eqn:Hb.
      * exfalso. rewrite app_nil_r in Hb.
        apply (f_equal (@length ascii)) in Hb.
        rewrite length_rev, length_app in Hb. cbn [take_while] in Hb.
        rewrite Hc in Hb. simpl in Hb. lia.
      * apply leading_later.
    + cbn [after]. rewrite <- app_assoc.
      rewrite <- (proj1 (run_split is_space _)). apply run_split.
    + cbn [take_while]. rewrite Hc. discriminate.
  - rewrite sub_walk_no_match; [f_equal; apply leading_later|].
    unfold EmailReceiptParser.leading_pattern, seq_of. cbn [fold_right].
    change (plus is_digit) with (Rep true 1 None is_digit).
    rewrite matches_seq, matches_bol_start. cbn [flat_map]. rewrite app_nil_r.
    rewrite matches_seq, matches_rep_short; [reflexivity|].
    cbn [after run_length]. rewrite Hc. lia.
Qed.

End NormaliserSteps.

(** * Whitespace at the ends of a text *)

Section StripFacts.

Lemma drop_while_all (p : ascii -> bool) (w x : text) :
  forallb p w = true -> drop_while p (w ++ x) = drop_while p x.
Proof.
  induction w as [|c w IH]; simpl; intros H; [reflexivity|].
  apply andb_true_iff in H. destruct H as [Hc Hw]. rewrite Hc. auto.
Qed.

Lemma take_while_forallb (p : ascii -> bool) (s : text) :
  forallb p (take_while p s) = true.
Proof.
  induction s as [|c s IH]; simpl; [reflexivity|].
  destruct (p c) eqn:Hc; simpl; [now rewrite Hc|reflexivity].
Qed.

Lemma forallb_rev (p : ascii -> bool) (s : text) :
  forallb p (rev s) = forallb p s.
Proof.
  induction s as [|c s IH]; simpl; [reflexivity|].
  rewrite forallb_app, IH. simpl. rewrite andb_true_r. apply andb_comm.
Qed.

Lemma drop_while_none (p : ascii -> bool) (s : text) :
  forallb p s = true -> drop_while p s = [].
Proof.
  intros H. rewrite <- (app_nil_r s). rewrite drop_while_all; auto.
Qed.

Lemma drop_while_nil_all (p : ascii -> bool) (s : text) :
  drop_while p s = [] -> forallb p s = true.
Proof.
  induction s as [|c s IH]; simpl; [reflexivity|].
  destruct (p c); [auto|discriminate].
Qed.

(** A text free of whitespace is untouched by [drop_while is_space], also
    when something follows it. *)
Lemma drop_while_solid (u x : text) :
  u <> [] -> forallb (fun c => negb (is_space c)) u = true ->
  drop_while is_space (u ++ x) = u ++ x.
Proof.
  intros Hu H. destruct u as [|c u]; [congruence|]. simpl in *.
  apply andb_true_iff in H. destruct H as [Hc _].
  apply negb_true_iff in Hc. now rewrite Hc.
Qed.

(** Stripping a whitespace-free text padded with whitespace gives the text
    back. *)
Lemma strip_padded (w1 u w3 : text) :
  forallb is_space w1 = true -> forallb is_space w3 = true ->
  u <> [] -> forallb (fun c => negb (is_space c)) u = true ->
  strip (w1 ++ u ++ w3) = u.
Proof.
  intros H1 H3 Hu Hs. unfold strip, lstrip, rstrip.
  rewrite (drop_while_all _ _ _ H1), (drop_while_solid _ _ Hu Hs).
  rewrite rev_app_distr, drop_while_all by now rewrite forallb_rev.
  rewrite <- (app_nil_r (rev u)), drop_while_solid.
  - rewrite app_nil_r. apply rev_involutive.
  - intros Hr. apply Hu. apply (f_equal (@rev ascii)) in Hr.
    now rewrite rev_involutive in Hr.
  - now rewrite forallb_rev.
Qed.

(** Every text is its stripped core between two runs of whitespace. *)
Lemma strip_split (s : text) :
  exists w1 w3,
    s = w1 ++ strip s ++ w3 /\
    w1 = take_while is_space s /\
    forallb is_space w1 = true /\ forallb is_space w3 = true.
Proof.
  exists (take_while is_space s),
         (rev (take_while is_space (rev (drop_while is_space s)))).
  split; [|split; [reflexivity|split]].
  - unfold strip, lstrip, rstrip. rewrite <- rev_app_distr.
    rewrite <- (proj1 (run_split is_space (rev (drop_while is_space s)))).
    rewrite rev_involutive. apply run_split.
  - apply take_while_forallb.
  - rewrite forallb_rev. apply take_while_forallb.
Qed.

Lemma space_not_upper (c : ascii) : is_space c = true -> is_upper c = false.
Proof.
  unfold is_space, is_upper, in_range. intros H.
  apply andb_false_iff. left. apply Nat.leb_gt.
  apply orb_true_iff in H.
  destruct H as [H|H]; apply andb_true_iff in H; destruct H as [H1 H2];
    apply Nat.leb_le in H1, H2; lia.
Qed.

Lemma lower_space (c : ascii) : is_space (to_lower c) = is_space c.
Proof.
  unfold to_lower. destruct (is_upper c) eqn:Hu; [|reflexivity].
  destruct (is_space c) eqn:Hs.
  - apply space_not_upper in Hs. congruence.
  - unfold is_space, is_upper, in_range in *.
    apply andb_true_iff in Hu. destruct Hu as [H1 H2].
    apply Nat.leb_le in H1, H2.
    assert (Hc : code (ascii_of_nat (code c + 32)) = code c + 32).
    { unfold code in *. apply nat_ascii_embedding. lia. }
    rewrite Hc. apply orb_false_iff. split; apply andb_false_iff.
    + right. apply Nat.leb_gt. lia.
    + right. apply Nat.leb_gt. lia.
Qed.

Lemma lower_solid (u : text) :
  forallb (fun c => negb (is_space c)) (lower u)
  = forallb (fun c => negb (is_space c)) u.
Proof.
  induction u as [|c u IH]; simpl; [reflexivity|].
  now rewrite lower_space, IH.
Qed.

Lemma text_eqb_eq (a b : text) : text_eqb a b = true <-> a = b.
Proof.
  revert b. induction a as [|x a IH]; intros [|y b]; simpl;
    try (split; [discriminate|discriminate]); try tauto.
  rewrite andb_true_iff, Ascii.eqb_eq, IH. split.
  - intros [-> ->]. reflexivity.
  - intros H. inversion H. auto.
Qed.

(** A unit word, in any case, is non-empty and free of whitespace. *)
Lemma is_unit_solid (u : text) :
  is_unit u = true ->
  u <> [] /\ forallb (fun c => negb (is_space c)) u = true /\
  exists unit, In unit units /\ lower u = lower (str unit).
Proof.
  unfold is_unit. intros H. apply existsb_exists in H.
  destruct H as (unit & Hin & He). apply text_eqb_eq in He.
  assert (Hs : forallb (fun c => negb (is_space c)) (lower u) = true
               /\ lower u <> [] /\ lower u = lower (str unit)).
  { rewrite He. simpl in Hin.
    repeat (destruct Hin as [<-|Hin];
            [split; [reflexivity|split; [discriminate|reflexivity]]|]).
    destruct Hin. }
  destruct Hs as (Hs & Hne & Hl). rewrite lower_solid in Hs.
  split; [|split; [exact Hs|now exists unit]].
  intros ->. now apply Hne.
Qed.

End StripFacts.

(** * The unit-suffix pattern *)

Section SuffixFacts.

Lemma lang_literal_ci (w : text) : forall u : text,
  lang (seq_of (map chr_ci w)) u -> lower u = lower w.
Proof.
  induction w as [|a w IH]; intros u H.
  - simpl in H. now subst.
  - change (seq_of (map chr_ci (a :: w)))
      with (Seq (chr_ci a) (seq_of (map chr_ci w))) in H.
    cbn [lang chr_ci] in H.
    destruct H as (x & y & -> & (c & -> & Hc) & Hy).
    apply Ascii.eqb_eq in Hc. cbn [app lower map]. rewrite Hc.
    f_equal. now apply IH.
Qed.

Lemma matches_literal_ci_in (w : text) :
  forall (u b x : text) (c : list (nat * text)),
  lower u = lower w ->
  In (MState (rev u ++ b) x c)
     (matches (seq_of (map chr_ci w)) (MState b (u ++ x) c)).
Proof.
  induction w as [|a w IH]; intros u b x c H.
  - destruct u; [|discriminate]. now left.
  - destruct u as [|d u]; [discriminate|].
    cbn [lower map] in H. injection H as Hd Hu.
    change (seq_of (map chr_ci (a :: w)))
      with (Seq (chr_ci a) (seq_of (map chr_ci w))).
    rewrite matches_seq. cbn [matches chr_ci after app].
    rewrite Hd, Ascii.eqb_refl. cbn [advance after before caps flat_map].
    rewrite app_nil_r. cbn [rev]. rewrite <- app_assoc. now apply IH.
Qed.

Lemma lang_alt_of (rs : list regex) (u : text) :
  lang (alt_of rs) u -> exists r, In r rs /\ lang r u.
Proof.
  induction rs as [|r rs IH]; cbn [alt_of fold_right lang].
  - intros (c & _ & Hc). discriminate.
  - intros [H|H]; [exists r; split; [now left|assumption]|].
    destruct (IH H) as (r' & Hin & Hl). exists r'. split; [now right|assumption].
Qed.

Lemma matches_alt_of_in (rs : list regex) (r : regex) (st e : mstate) :
  In r rs -> In e (matches r st) -> In e (matches (alt_of rs) st).
Proof.
  induction rs as [|r' rs IH]; intros Hin He; [destruct Hin|].
  unfold alt_of. cbn [fold_right]. rewrite matches_alt. apply in_or_app.
  destruct Hin as [->|Hin]; [now left|right; now apply IH].
Qed.

Lemma matches_eol_in (e x : mstate) :
  In e (matches Eol x) ->
  e = x /\ (after x = [] \/ after x = [newline]).
Proof.
  cbn [matches]. destruct (after x) as [|c [|d s]]; intros H.
  - destruct H as [<-|[]]. auto.
  - destruct (Ascii.eqb c newline) eqn:Hc; [|destruct H].
    apply Ascii.eqb_eq in Hc. subst c. destruct H as [<-|[]]. auto.
  - destruct H.
Qed.

Lemma flat_map_head {A B : Type} (f : A -> list B) (l : list A) (e : B) (es : list B) :
  flat_map f l = e :: es -> exists x es', In x l /\ f x = e :: es'.
Proof.
  induction l as [|x l IH]; cbn [flat_map]; [discriminate|].
  destruct (f x) as [|y ys] eqn:Hf; cbn [app]; intros H.
  - destruct (IH H) as (x' & es' & Hin & Hx). exists x', es'. split; [now right|assumption].
  - injection H as -> _. exists x, ys. split; [now left|assumption].
Qed.

Lemma run_length_all (p : ascii -> bool) (w : text) :
  forallb p w = true -> run_length p w = length w.
Proof.
  induction w as [|c w IH]; simpl; intros H; [reflexivity|].
  apply andb_true_iff in H. destruct H as [Hc Hw]. rewrite Hc. now rewrite IH.
Qed.

Lemma closing_in (e s : mstate) :
  In e (matches closing s) -> forallb is_space (after s) = true.
Proof.
  unfold closing. rewrite matches_seq. intros H.
  apply in_flat_map in H. destruct H as (s3 & H3 & H).
  rewrite matches_seq in H. apply in_flat_map in H. destruct H as (s4 & H4 & _).
  apply matches_eol_in in H4. destruct H4 as [_ Ht].
  apply matches_sound in H3. destruct H3 as (w & _ & [Hw _] & (Hs & _) & _).
  rewrite Hw, forallb_app, Hs. destruct Ht as [-> | ->]; reflexivity.
Qed.

(** The first match of the closing part runs to the end of the text. *)
Lemma closing_head (s e : mstate) (es : list mstate) :
  matches closing s = e :: es -> after e = [].
Proof.
  intros H.
  assert (Hall : forallb is_space (after s) = true).
  { apply (closing_in e). rewrite H. now left. }
  destruct s as [b a c]. cbn [after] in Hall.
  unfold closing in H. rewrite matches_seq in H.
  unfold star in H. rewrite (matches_greedy 0) in H by lia.
  cbn [after] in H. rewrite advance_run, (drop_while_none _ _ Hall) in H.
  cbn [flat_map] in H. rewrite matches_seq in H.
  cbn [matches after flat_map app] in H. injection H as <- _. reflexivity.
Qed.

Lemma suffix_pattern_eq :
  EmailReceiptParser.suffix_pattern
  = Seq (star is_space) (Seq (Grp 1 (alt_of (map lit_ci units))) closing).
Proof. reflexivity. Qed.

Lemma units_lower (unit : string) : In unit units -> lower (str unit) = str unit.
Proof.
  simpl. intros H.
  repeat (destruct H as [<-|H]; [reflexivity|]). destruct H.
Qed.

(** Wherever the pattern matches, the text ahead is a padded unit word. *)
Lemma suffix_sound (b a : text) (e : mstate) :
  In e (matches EmailReceiptParser.suffix_pattern (MState b a [])) ->
  is_unit (strip a) = true.
Proof.
  rewrite suffix_pattern_eq, matches_seq. intros H.
  apply in_flat_map in H. destruct H as (s1 & H1 & H).
  rewrite matches_seq in H. apply in_flat_map in H. destruct H as (s2 & H2 & H).
  apply closing_in in H.
  apply matches_sound in H1. destruct H1 as (w1 & _ & [Hw1 _] & (Hs1 & _) & _).
  apply matches_sound in H2. destruct H2 as (u & _ & [Hu _] & Lu & _).
  cbn [lang] in Lu. apply lang_alt_of in Lu. destruct Lu as (r & Hr & Lu).
  apply in_map_iff in Hr. destruct Hr as (unit & <- & Hunit).
  apply lang_literal_ci in Lu. rewrite (units_lower _ Hunit) in Lu.
  assert (Hiu : is_unit u = true).
  { unfold is_unit. apply existsb_exists. exists unit. split; [assumption|].
    now apply text_eqb_eq. }
  destruct (is_unit_solid u Hiu) as (Hne & Hsolid & _).
  cbn [after] in Hw1. rewrite Hw1, Hu.
  now rewrite (strip_padded w1 u (after s2) Hs1 H Hne Hsolid).
Qed.

(** Wherever a padded unit word lies ahead, the pattern matches. *)
Lemma suffix_complete (b a : text) :
  is_unit (strip a) = true ->
  matches EmailReceiptParser.suffix_pattern (MState b a []) <> [].
Proof.
  intros Hiu.
  destruct (strip_split a) as (w1 & w3 & Ha & Hw1 & Hs1 & Hs3).
  destruct (is_unit_solid _ Hiu) as (_ & _ & unit & Hunit & Hl).
  set (u := strip a) in *.
  set (cap := consumed (MState (rev w1 ++ b) (u ++ w3) [])
                       (MState (rev u ++ rev w1 ++ b) w3 [])).
  assert (Hin : In (MState (rev w3 ++ rev u ++ rev w1 ++ b) [] [(1, cap)])
                   (matches EmailReceiptParser.suffix_pattern (MState b a []))).
  { rewrite suffix_pattern_eq, matches_seq. apply in_flat_map.
    exists (MState (rev w1 ++ b) (u ++ w3) []). split.
    - cbn [matches star]. apply in_map_iff. exists (length w1). split.
      + rewrite Ha at 1. apply advance_app.
      + apply -> in_rev. apply in_counts. cbn [after].
        rewrite Hw1. rewrite (proj2 (run_split is_space a)). lia.
    - rewrite matches_seq. apply in_flat_map.
      exists (MState (rev u ++ rev w1 ++ b) w3 [(1, cap)]).
      split.
      + rewrite matches_grp. apply in_map_iff.
        exists (MState (rev u ++ rev w1 ++ b) w3 []). split; [reflexivity|].
        apply (matches_alt_of_in _ (lit_ci unit)); [now apply in_map|].
        now apply matches_literal_ci_in.
      + unfold closing. rewrite matches_seq. apply in_flat_map.
        exists (MState (rev w3 ++ rev u ++ rev w1 ++ b) [] [(1, cap)]). split.
        * cbn [matches star]. apply in_map_iff. exists (length w3). split.
          -- rewrite <- (app_nil_r w3) at 2. apply advance_app.
          -- apply -> in_rev. apply in_counts. cbn [after].
             rewrite (run_length_all _ _ Hs3). lia.
        * rewrite matches_seq. apply in_flat_map.
          exists (MState (rev w3 ++ rev u ++ rev w1 ++ b) [] [(1, cap)]).
          split; now left. }
  intros Hnil. rewrite Hnil in Hin. destruct Hin.
Qed.

(** The first match of the pattern runs to the end of the text. *)
Lemma suffix_head (st e : mstate) (es : list mstate) :
  matches EmailReceiptParser.suffix_pattern st = e :: es -> after e = [].
Proof.
  rewrite suffix_pattern_eq, matches_seq. intros H.
  apply flat_map_head in H. destruct H as (s1 & es1 & _ & H).
  rewrite matches_seq in H.
  apply flat_map_head in H. destruct H as (s2 & es2 & _ & H).
  now apply closing_head in H.
Qed.

Lemma cut_unit_suffix_cons (c : ascii) (s : text) :
  cut_unit_suffix (c :: s)
  = if is_unit (strip (c :: s)) then [] else c :: cut_unit_suffix s.
Proof. reflexivity. Qed.

Lemma suffix_at_end (bef : text) :
  sub_walk EmailReceiptParser.suffix_pattern [] 0 bef [] = [].
Proof.
  apply sub_walk_no_match_nil.
  destruct (matches EmailReceiptParser.suffix_pattern (MState bef [] []))
    as [|e es] eqn:Hm; [reflexivity|].
  assert (H : is_unit (strip []) = true).
  { apply (suffix_sound bef [] e). rewrite Hm. now left. }
  discriminate.
Qed.

(** [re.sub(r'\s*(ea|each|lb|oz|kg|g)\s*$', '', s, flags=re.IGNORECASE)]
    cuts the text where a trailing unit word starts. *)
Lemma sub_suffix (s : text) :
  sub EmailReceiptParser.suffix_pattern [] s = cut_unit_suffix s.
Proof.
  unfold sub.
  enough (H : forall bef,
            sub_walk EmailReceiptParser.suffix_pattern [] 0 bef s
            = cut_unit_suffix s) by apply H.
  induction s as [|c s IH]; intros bef; [apply suffix_at_end|].
  rewrite cut_unit_suffix_cons.
  destruct (is_unit (strip (c :: s))) eqn:Hu.
  - destruct (matches EmailReceiptParser.suffix_pattern (MState bef (c :: s) []))
      as [|e es] eqn:Hm.
    + exfalso. now apply (suffix_complete bef (c :: s)).
    + pose proof (suffix_head _ _ _ Hm) as He.
      rewrite (sub_walk_match _ _ _ _ e es (c :: s) Hm).
      * rewrite He. cbn [app]. apply suffix_at_end.
      * rewrite He. now rewrite app_nil_r.
      * discriminate.
  - rewrite sub_walk_no_match; [f_equal; apply IH|].
    destruct (matches EmailReceiptParser.suffix_pattern (MState bef (c :: s) []))
      as [|e es] eqn:Hm; [reflexivity|].
    assert (H : is_unit (strip (c :: s)) = true).
    { apply (suffix_sound bef (c :: s) e). rewrite Hm. now left. }
    congruence.
Qed.

End SuffixFacts.

(** * Worked examples *)

Section Examples.

Example classify_whole_milk :
  ItemCategorizer.categorize_item (str "Whole Milk") = "Dairy & Eggs".
Proof. vm_compute. reflexivity. Qed.

Example classify_frozen_pizza :
  ItemCategorizer.categorize_item (str "Frozen Pizza") = "Frozen".
Proof. vm_compute. reflexivity. Qed.

Example classify_unbranded_widget :
  ItemCategorizer.categorize_item (str "Unbranded Widget") = "Other".
Proof. vm_compute. reflexivity. Qed.

(** A keyword is not found inside a longer word. *)
Example classify_icecream_one_word :
  ItemCategorizer.categorize_item (str "Icecream") = "Other".
Proof. vm_compute. reflexivity. Qed.

(** The name the scan path gives the second item of the scenario. *)
Example scan_milk_line :
  ReceiptProcessor.item_of_line (str "MILK 2 @ 3.99  7.98")
  = Ok (Some (Item (str "Milk 798") 2 3.99 (Qred 7.98))).
Proof. vm_compute. reflexivity. Qed.

(** The format of the email path's own comment, [X x Item @ $Y.YY = $Z.ZZ]:
    the [=] keeps the unit price from being captured. *)
Example email_commented_format :
  EmailReceiptParser.item_of_line (str "2 x Milk @ $1.00 = $2.00")
  = Ok (Some (Item (str "Milk @") 2 (Qred 0.5) 1)).
Proof. vm_compute. reflexivity. Qed.

Example email_zero_quantity_with_unit_price :
  EmailReceiptParser.item_of_line (str "0 x Milk @ 1.00 5.00")
  = Ok (Some (Item (str "Milk") 0 1 5)).
Proof. vm_compute. reflexivity. Qed.

Example date_iso :
  forall now, ReceiptProcessor._extract_date now (str "2024-01-15")
              = Ok (DateTime 2024 1 15 0 0 0).
Proof. intros now. rewrite extract_date_spec. vm_compute. reflexivity. Qed.

Example date_month_name :
  forall now, ReceiptProcessor._extract_date now (str "15 January 2024")
              = Ok (DateTime 2024 1 15 0 0 0).
Proof. intros now. rewrite extract_date_spec. vm_compute. reflexivity. Qed.

Example scan_balance_is_a_total :
  ReceiptProcessor._extract_totals (str "BALANCE 3.00") = Ok (3%Q, 0%Q).
Proof. vm_compute. reflexivity. Qed.

End Examples.

(** * More on the classifier *)

Section ClassifierRange.

Lemma first_category_range (cats : list (string * ItemCategorizer.category_data))
      (l : text) :
  ItemCategorizer.first_category cats l = "Other" \/
  In (ItemCategorizer.first_category cats l) (map fst cats).
Proof.
  induction cats as [|[c d] cats IH]; simpl; [now left|].
  destruct (String.eqb c "Other").
  - destruct IH as [IH|IH]; [now left|right; now right].
  - destruct (ItemCategorizer.keyword_hit (ItemCategorizer.keywords d) l).
    + right. now left.
    + destruct IH as [IH|IH]; [now left|right; now right].
Qed.

Lemma categorize_item_range (item_name : text) :
  In (ItemCategorizer.categorize_item item_name) (map fst ItemCategorizer.categories).
Proof.
  unfold ItemCategorizer.categorize_item.
  destruct (is_nil item_name); [simpl; tauto|].
  destruct (first_category_range ItemCategorizer.categories (lower item_name))
    as [H|H]; [rewrite H; simpl; tauto|exact H].
Qed.

(** X1.  Whatever the item name, [categorize_item] returns one of the ten
    configured category names, and therefore a string of at most 50
    characters, the width of the [category] column. *)
Theorem X1_category_is_configured (item_name : text) :
  In (ItemCategorizer.categorize_item item_name)
     (map fst ItemCategorizer.categories) /\
  String.length (ItemCategorizer.categorize_item item_name) <= 50.
Proof.
  pose proof (categorize_item_range item_name) as H.
  split; [exact H|].
  simpl in H.
  repeat (destruct H as [<-|H]; [simpl; lia|]). destruct H.
Qed.

Lemma to_lower_idem (c : ascii) : to_lower (to_lower c) = to_lower c.
Proof. destruct c as [[] [] [] [] [] [] [] []]; reflexivity. Qed.

Lemma to_lower_upper (c : ascii) : to_lower (to_upper c) = to_lower c.
Proof. destruct c as [[] [] [] [] [] [] [] []]; reflexivity. Qed.

Lemma lower_idem (s : text) : lower (lower s) = lower s.
Proof.
  unfold lower. rewrite map_map. apply map_ext. apply to_lower_idem.
Qed.

Lemma lower_title_from (s : text) : forall b, lower (title_from b s) = lower s.
Proof.
  induction s as [|c s IH]; intros b; [reflexivity|].
  cbn [title_from lower map]. fold (lower (title_from (is_alpha c) s)).
  fold (lower s). rewrite IH.
  destruct b; [now rewrite to_lower_idem|now rewrite to_lower_upper].
Qed.

Lemma lower_title (s : text) : lower (title s) = lower s.
Proof. apply lower_title_from. Qed.

Lemma categorize_by_lower (a b : text) :
  lower a = lower b ->
  ItemCategorizer.categorize_item a = ItemCategorizer.categorize_item b.
Proof.
  intros H. unfold ItemCategorizer.categorize_item. rewrite H.
  destruct a, b; try reflexivity; discriminate.
Qed.

(** X2.  On ASCII names classification ignores letter case: two names
    with the same lower-casing get the same category.  In particular the
    title-casing that both name normalisers apply last never changes the
    category of a name.  (Beyond ASCII Python's [title] can change the
    letters themselves.) *)
Theorem X2_category_ignores_case :
  (forall a b : text,
     ascii_only a -> ascii_only b ->
     lower a = lower b ->
     ItemCategorizer.categorize_item a = ItemCategorizer.categorize_item b) /\
  (forall s : text,
     ascii_only s ->
     ItemCategorizer.categorize_item (title s) = ItemCategorizer.categorize_item s) /\
  (forall s : text,
     ascii_only s ->
     ItemCategorizer.categorize_item (lower s) = ItemCategorizer.categorize_item s).
Proof.
  split; [intros a b _ _; apply categorize_by_lower|].
  split; intros s _; apply categorize_by_lower.
  - apply lower_title.
  - apply lower_idem.
Qed.

(** The hypotheses of X2 on two spellings of one name, and on a name the
    normalisers title-case. *)
Lemma X2_witness :
  ascii_only (str "WHOLE MILK") /\ ascii_only (str "Whole milk") /\
  lower (str "WHOLE MILK") = lower (str "Whole milk") /\
  ItemCategorizer.categorize_item (str "WHOLE MILK")
  = ItemCategorizer.categorize_item (str "Whole milk") /\
  ItemCategorizer.categorize_item (title (str "WHOLE MILK"))
  = ItemCategorizer.categorize_item (str "WHOLE MILK").
Proof.
  assert (H : lower (str "WHOLE MILK") = lower (str "Whole milk")) by reflexivity.
  split; [reflexivity|]. split; [reflexivity|]. split; [exact H|].
  split; [exact (proj1 X2_category_ignores_case (str "WHOLE MILK")
                  (str "Whole milk") eq_refl eq_refl H)|].
  exact (proj1 (proj2 X2_category_ignores_case) (str "WHOLE MILK") eq_refl).
Defined.

Lemma dict_get_in {V : Type} (d : list (string * V)) (k : string) :
  In k (map fst d) -> exists v, ItemCategorizer.dict_get d k = Some v /\ In (k, v) d.
Proof.
  induction d as [|[k' v] d IH]; simpl; [tauto|].
  destruct (String.eqb k' k) eqn:Hk.
  - intros _. apply String.eqb_eq in Hk. subst. exists v. auto.
  - intros [H|H].
    + subst. rewrite String.eqb_refl in Hk. discriminate.
    + destruct (IH H) as (v' & Hg & Hin). exists v'. auto.
Qed.

Lemma dict_get_missing {V : Type} (d : list (string * V)) (k : string) :
  ~ In k (map fst d) -> ItemCategorizer.dict_get d k = None.
Proof.
  induction d as [|[k' v] d IH]; simpl; [reflexivity|]. intros H.
  destruct (String.eqb k' k) eqn:Hk.
  - apply String.eqb_eq in Hk. tauto.
  - apply IH. tauto.
Qed.

Lemma dict_get_unique {V : Type} (d : list (string * V)) (k : string) (v : V) :
  NoDup (map fst d) -> In (k, v) d -> ItemCategorizer.dict_get d k = Some v.
Proof.
  induction d as [|[k' v'] d IH]; simpl; [tauto|]. intros Hnd [H|H].
  - injection H as -> ->. now rewrite String.eqb_refl.
  - inversion Hnd as [|? ? Hnot Hnd']; subst.
    destruct (String.eqb k' k) eqn:Hk.
    + apply String.eqb_eq in Hk. subst. exfalso. apply Hnot.
      apply in_map_iff. exists (k, v). auto.
    + now apply IH.
Qed.

Lemma categories_distinct : NoDup (map fst ItemCategorizer.categories).
Proof.
  simpl. repeat (apply NoDup_cons; [simpl; intros H;
    repeat (destruct H as [H|H]; [discriminate|]); exact H|]).
  apply NoDup_nil.
Qed.

(** X3.  The colour lookup never misses on a classified item: for every
    item name the colour of its category is the colour configured for that
    category.  Every entry of [get_all_categories] carries the colour that
    [get_category_color] returns for its name, and a name that is not
    configured gets the grey of [Other]. *)
Theorem X3_category_colours :
  (forall item_name : text,
     exists data,
       In (ItemCategorizer.categorize_item item_name, data)
          ItemCategorizer.categories /\
       ItemCategorizer.get_category_color
         (ItemCategorizer.categorize_item item_name)
       = ItemCategorizer.color data) /\
  (forall cat col : string,
     In (cat, col) ItemCategorizer.get_all_categories ->
     ItemCategorizer.get_category_color cat = col) /\
  (forall cat : string,
     ~ In cat (map fst ItemCategorizer.categories) ->
     ItemCategorizer.get_category_color cat
     = ItemCategorizer.get_category_color "Other").
Proof.
  split; [|split].
  - intros item_name.
    destruct (dict_get_in ItemCategorizer.categories _
                (categorize_item_range item_name)) as (data & Hg & Hin).
    exists data. split; [exact Hin|].
    unfold ItemCategorizer.get_category_color. now rewrite Hg.
  - intros cat col Hin. unfold ItemCategorizer.get_all_categories in Hin.
    apply in_map_iff in Hin. destruct Hin as ([c d] & Heq & Hin).
    simpl in Heq. injection Heq as -> <-.
    unfold ItemCategorizer.get_category_color.
    now rewrite (dict_get_unique _ _ _ categories_distinct Hin).
  - intros cat Hnot. unfold ItemCategorizer.get_category_color at 1.
    now rewrite (dict_get_missing _ _ Hnot).
Qed.

(** The hypotheses of X3 on a configured and on an unknown category. *)
Lemma X3_witness :
  In ("Frozen", "#B3E5FC") ItemCategorizer.get_all_categories /\
  ItemCategorizer.get_category_color "Frozen" = "#B3E5FC" /\
  ~ In "Hardware" (map fst ItemCategorizer.categories) /\
  ItemCategorizer.get_category_color "Hardware"
  = ItemCategorizer.get_category_color "Other".
Proof.
  assert (H1 : In ("Frozen", "#B3E5FC") ItemCategorizer.get_all_categories)
    by (simpl; do 6 right; left; reflexivity).
  assert (H2 : ~ In "Hardware" (map fst ItemCategorizer.categories)).
  { simpl. intros H. repeat (destruct H as [H|H]; [discriminate|]). exact H. }
  split; [exact H1|].
  split; [exact (proj1 (proj2 X3_category_colours) _ _ H1)|].
  split; [exact H2|].
  exact (proj2 (proj2 X3_category_colours) _ H2).
Defined.

End ClassifierRange.

(** * More on the store identifier *)

Section StoreRange.

Lemma first_store_range (ps : list (string * regex)) (t : text) :
  ReceiptProcessor.first_store ps t = str "Unknown Store" \/
  In (ReceiptProcessor.first_store ps t) (map (fun e => title (str (fst e))) ps).
Proof.
  induction ps as [|[s r] ps IH]; simpl; [now left|].
  destruct (search r t); [right; now left|].
  destruct IH as [IH|IH]; [now left|right; now right].
Qed.

(** X4.  Both store identifiers always return one of a fixed list of
    names: the title-cased name of one of their table entries, or
    [Unknown Store]; in either case at most 100 characters, the width of
    the [store_name] column. *)
Theorem X4_store_name_range :
  (forall t : text,
     In (ReceiptProcessor._extract_store_name t) (map str scan_store_names) /\
     length (ReceiptProcessor._extract_store_name t) <= 100) /\
  (forall (body : text) (subject sender : option text),
     In (EmailReceiptParser._identify_store body subject sender)
        (map str email_store_names) /\
     length (EmailReceiptParser._identify_store body subject sender) <= 100).
Proof.
  split.
  - intros t. unfold ReceiptProcessor._extract_store_name.
    assert (H : In (ReceiptProcessor.first_store ReceiptProcessor.store_patterns
                      (lower t)) (map str scan_store_names)).
    { destruct (first_store_range ReceiptProcessor.store_patterns (lower t))
        as [H|H].
      - rewrite H. simpl. do 10 right. now left.
      - simpl in H. simpl.
        repeat (destruct H as [H|H]; [rewrite <- H; vm_compute; tauto|]).
        destruct H. }
    split; [exact H|].
    revert H. generalize (ReceiptProcessor.first_store
                            ReceiptProcessor.store_patterns (lower t)).
    apply Forall_forall. repeat (apply Forall_cons; [simpl; lia|]).
    apply Forall_nil.
  - intros body subject sender. unfold EmailReceiptParser._identify_store.
    set (t := lower _).
    assert (H : In (ReceiptProcessor.first_store EmailReceiptParser.store_patterns t)
                   (map str email_store_names)).
    { destruct (first_store_range EmailReceiptParser.store_patterns t) as [H|H].
      - rewrite H. simpl. do 7 right. now left.
      - simpl in H. simpl.
        repeat (destruct H as [H|H]; [rewrite <- H; vm_compute; tauto|]).
        destruct H. }
    split; [exact H|].
    revert H. generalize (ReceiptProcessor.first_store
                            EmailReceiptParser.store_patterns t).
    apply Forall_forall. repeat (apply Forall_cons; [simpl; lia|]).
    apply Forall_nil.
Qed.

End StoreRange.

(** * More on the item loops *)

Section ItemLoops.

Lemma scan_loop_acc : forall (lines : list text) (acc : list item),
  ReceiptProcessor.extract_loop acc lines
  = (x <- ReceiptProcessor.extract_loop [] lines ;; Ok (acc ++ x)).
Proof.
  induction lines as [|line lines IH]; intros acc; cbn [ReceiptProcessor.extract_loop].
  - cbn [bind]. now rewrite app_nil_r.
  - destruct (ReceiptProcessor.item_of_line line) as [o|e]; cbn [bind]; [|reflexivity].
    rewrite IH. rewrite (IH (match o with Some i => [] ++ [i] | None => [] end)).
    destruct (ReceiptProcessor.extract_loop [] lines) as [x|e]; cbn [bind];
      [|reflexivity].
    destruct o; cbn [app]; [now rewrite <- app_assoc|reflexivity].
Qed.

Lemma email_loop_acc : forall (lines : list text) (acc : list item),
  EmailReceiptParser.extract_loop acc lines
  = (x <- EmailReceiptParser.extract_loop [] lines ;; Ok (acc ++ x)).
Proof.
  induction lines as [|line lines IH]; intros acc; cbn [EmailReceiptParser.extract_loop].
  - cbn [bind]. now rewrite app_nil_r.
  - destruct (EmailReceiptParser.item_of_line line) as [o|e]; cbn [bind]; [|reflexivity].
    rewrite IH. rewrite (IH (match o with Some i => [] ++ [i] | None => [] end)).
    destruct (EmailReceiptParser.extract_loop [] lines) as [x|e]; cbn [bind];
      [|reflexivity].
    destruct o; cbn [app]; [now rewrite <- app_assoc|reflexivity].
Qed.

Lemma scan_loop_app : forall (l1 l2 : list text) (acc : list item),
  ReceiptProcessor.extract_loop acc (l1 ++ l2)
  = (a <- ReceiptProcessor.extract_loop acc l1 ;;
     ReceiptProcessor.extract_loop a l2).
Proof.
  induction l1 as [|line l1 IH]; intros l2 acc; [reflexivity|].
  cbn [app ReceiptProcessor.extract_loop].
  destruct (ReceiptProcessor.item_of_line line) as [o|e]; cbn [bind]; [|reflexivity].
  apply IH.
Qed.

Lemma email_loop_app : forall (l1 l2 : list text) (acc : list item),
  EmailReceiptParser.extract_loop acc (l1 ++ l2)
  = (a <- EmailReceiptParser.extract_loop acc l1 ;;
     EmailReceiptParser.extract_loop a l2).
Proof.
  induction l1 as [|line l1 IH]; intros l2 acc; [reflexivity|].
  cbn [app EmailReceiptParser.extract_loop].
  destruct (EmailReceiptParser.item_of_line line) as [o|e]; cbn [bind]; [|reflexivity].
  apply IH.
Qed.

Lemma line_items_app (p : source_path) (l1 l2 : list text) :
  line_items p (l1 ++ l2)
  = (a <- line_items p l1 ;; b <- line_items p l2 ;; Ok (a ++ b)).
Proof.
  destruct p; cbn [line_items]; unfold ReceiptProcessor._extract_items.
  - rewrite scan_loop_app.
    destruct (ReceiptProcessor.extract_loop [] l1) as [a|e]; cbn [bind];
      [|reflexivity].
    apply scan_loop_acc.
  - rewrite email_loop_app.
    destruct (EmailReceiptParser.extract_loop [] l1) as [a|e]; cbn [bind];
      [|reflexivity].
    apply email_loop_acc.
Qed.

(** X5.  On either path the item loop treats the lines independently and
    in order: the items of a document split in two are the items of the
    first part followed by those of the second, an exception in either part
    being the exception of the whole.  A line contributes at most one item,
    so there are never more items than lines. *)
Theorem X5_items_follow_lines :
  (forall (p : source_path) (l1 l2 : list text),
     line_items p (l1 ++ l2)
     = (a <- line_items p l1 ;; b <- line_items p l2 ;; Ok (a ++ b))) /\
  (forall (p : source_path) (lines : list text) (items : list item),
     line_items p lines = Ok items -> length items <= length lines).
Proof.
  split; [exact line_items_app|]. intros p.
  induction lines as [|line lines IH]; intros items H.
  - destruct p; cbn in H; injection H as <-; simpl; lia.
  - change (line :: lines) with ([line] ++ lines) in H.
    rewrite line_items_app in H.
    destruct (line_items p [line]) as [a|e] eqn:Ha; cbn [bind] in H; [|discriminate].
    destruct (line_items p lines) as [b|e] eqn:Hb; cbn [bind] in H; [|discriminate].
    injection H as <-. rewrite length_app. specialize (IH b eq_refl).
    assert (length a <= 1).
    { destruct p; cbn in Ha; unfold ReceiptProcessor._extract_items in Ha;
        cbn in Ha.
      - destruct (ReceiptProcessor.item_of_line line) as [[i|]|e]; cbn in Ha;
          try discriminate; injection Ha as <-; simpl; lia.
      - destruct (EmailReceiptParser.item_of_line line) as [[i|]|e]; cbn in Ha;
          try discriminate; injection Ha as <-; simpl; lia. }
    simpl. lia.
Qed.

(** The hypothesis of X5 on a three-line email body with two items. *)
Lemma X5_witness :
  line_items Email [str "Organic Bananas   $1.99"; str "hello there";
                    str "3 x Eggs 6.00"]
  = Ok [Item (str "Organic Bananas") 1 1.99 1.99; Item (str "Eggs") 3 2 6] /\
  2 <= 3.
Proof.
  assert (H : line_items Email [str "Organic Bananas   $1.99"; str "hello there";
                                str "3 x Eggs 6.00"]
              = Ok [Item (str "Organic Bananas") 1 1.99 1.99;
                    Item (str "Eggs") 3 2 6]) by (vm_compute; reflexivity).
  split; [exact H|]. exact (proj2 X5_items_follow_lines Email _ _ H).
Defined.






End ItemLoops.

(** * Characters a document needs before anything is extracted *)

Section RequiredCharacters.

Lemma all_ascii_complete (c : ascii) : In c all_ascii.
Proof.
  unfold all_ascii. rewrite <- (ascii_nat_embedding c).
  apply in_map, in_seq. pose proof (nat_ascii_bounded c). lia.
Qed.

Lemma within_sound (q p : ascii -> bool) (c : ascii) :
  within q p = true -> q c = true -> p c = true.
Proof.
  unfold within. rewrite forallb_forall. intros H Hq.
  specialize (H c (all_ascii_complete c)). rewrite Hq in H. exact H.
Qed.

Lemma existsb_app_l (p : ascii -> bool) (u v : text) :
  existsb p u = true -> existsb p (u ++ v) = true.
Proof. intros H. rewrite existsb_app, H. reflexivity. Qed.

Lemma existsb_app_r (p : ascii -> bool) (u v : text) :
  existsb p v = true -> existsb p (u ++ v) = true.
Proof. intros H. rewrite existsb_app, H. apply orb_true_r. Qed.

Lemma must_sound (p : ascii -> bool) (r : regex) : forall w : text,
  must p r = true -> lang r w -> existsb p w = true.
Proof.
  induction r as [|q|r1 IH1 r2 IH2|r1 IH1 r2 IH2|g lo hi q|k r IH| | |];
    intros w Hm Hl; cbn [must] in Hm; try discriminate; cbn [lang] in Hl.
  - destruct Hl as (c & -> & Hq). cbn [existsb].
    rewrite (within_sound q p c Hm Hq). reflexivity.
  - destruct Hl as (u & v & -> & Hu & Hv).
    apply orb_true_iff in Hm. destruct Hm as [Hm|Hm].
    + apply existsb_app_l. now apply IH1.
    + apply existsb_app_r. now apply IH2.
  - apply andb_true_iff in Hm. destruct Hm as [Hm1 Hm2].
    destruct Hl as [Hl|Hl]; [now apply IH1|now apply IH2].
  - apply andb_true_iff in Hm. destruct Hm as [Hlo Hq].
    apply Nat.ltb_lt in Hlo. destruct Hl as (Hall & Hlen & _).
    destruct w as [|c w]; [simpl in Hlen; lia|].
    cbn [forallb] in Hall. apply andb_true_iff in Hall. destruct Hall as [Hc _].
    cbn [existsb]. rewrite (within_sound q p c Hq Hc). reflexivity.
  - now apply IH.
Qed.

(** A pattern that needs a character of class [p] matches nowhere in a text
    free of it. *)
Lemma search_must (p : ascii -> bool) (r : regex) (t : text) :
  must p r = true -> free_of p t -> search r t = None.
Proof.
  intros Hm Hf. destruct (search r t) as [m|] eqn:Hs; [|reflexivity].
  apply search_at_some in Hs. destruct Hs as (u & v & e & -> & He & _).
  apply matches_sound in He. destruct He as (w & new & [Ha _] & Hl & _).
  cbn [after] in Ha. subst v. unfold free_of in Hf.
  rewrite existsb_app, existsb_app, (must_sound p r w Hm Hl) in Hf.
  rewrite orb_true_r in Hf. discriminate.
Qed.

Lemma free_of_incl (p : ascii -> bool) (s t : text) :
  (forall c, In c s -> In c t) -> free_of p t -> free_of p s.
Proof.
  unfold free_of. intros Hin Hf.
  destruct (existsb p s) eqn:Hs; [|reflexivity].
  apply existsb_exists in Hs. destruct Hs as (c & Hc & Hp).
  rewrite <- Hf. symmetry. apply existsb_exists. exists c. auto.
Qed.

Lemma drop_while_incl (p : ascii -> bool) (s : text) (c : ascii) :
  In c (drop_while p s) -> In c s.
Proof.
  induction s as [|a s IH]; cbn [drop_while]; [tauto|].
  destruct (p a); [right; auto|tauto].
Qed.

Lemma strip_incl (s : text) (c : ascii) : In c (strip s) -> In c s.
Proof.
  unfold strip, rstrip, lstrip. intros H. apply in_rev in H.
  apply drop_while_incl in H. apply in_rev in H.
  now apply drop_while_incl in H.
Qed.

Lemma split_on_incl (sep : ascii) : forall (s line : text) (c : ascii),
  In line (split_on sep s) -> In c line -> In c s.
Proof.
  induction s as [|a s IH]; intros line c Hl Hc; cbn [split_on] in Hl.
  - destruct Hl as [<-|[]]. destruct Hc.
  - destruct (Ascii.eqb a sep).
    + destruct Hl as [<-|Hl]; [destruct Hc|]. right. eauto.
    + destruct (split_on sep s) as [|l ls] eqn:Hsp.
      * destruct Hl as [<-|[]]. destruct Hc as [<-|[]]. now left.
      * destruct Hl as [<-|Hl].
        -- destruct Hc as [<-|Hc]; [now left|]. right.
           apply (IH l c); [now left|exact Hc].
        -- right. apply (IH line c); [now right|exact Hc].
Qed.

Lemma stripped_lines_incl (t line : text) (c : ascii) :
  In line (ReceiptProcessor.stripped_lines t) -> In c line -> In c t.
Proof.
  unfold ReceiptProcessor.stripped_lines. intros Hl Hc.
  apply in_map_iff in Hl. destruct Hl as (raw & <- & Hraw).
  apply filter_In in Hraw. destruct Hraw as [Hraw _].
  apply strip_incl in Hc. exact (split_on_incl newline t raw c Hraw Hc).
Qed.

Lemma existsb_lower (p : ascii -> bool) (t : text) :
  (forall c, p (to_lower c) = p c) -> existsb p (lower t) = existsb p t.
Proof.
  intros Hp. unfold lower. induction t as [|c t IH]; [reflexivity|].
  cbn [map existsb]. now rewrite Hp, IH.
Qed.

Lemma point_to_lower (c : ascii) : is_point (to_lower c) = is_point c.
Proof. destruct c as [[] [] [] [] [] [] [] []]; reflexivity. Qed.

Lemma digit_to_lower (c : ascii) : is_digit (to_lower c) = is_digit c.
Proof. destruct c as [[] [] [] [] [] [] [] []]; reflexivity. Qed.

Lemma free_of_lower (p : ascii -> bool) (t : text) :
  (forall c, p (to_lower c) = p c) -> free_of p t -> free_of p (lower t).
Proof. unfold free_of. intros Hp H. now rewrite existsb_lower. Qed.

Lemma email_item_nothing (line : text) :
  search EmailReceiptParser.pattern1 (strip line) = None ->
  search EmailReceiptParser.pattern2 (strip line) = None ->
  EmailReceiptParser.item_of_line line = Ok None.
Proof.
  intros H1 H2. unfold EmailReceiptParser.item_of_line. rewrite H1, H2.
  destruct (is_nil _ || _); [reflexivity|]. now destruct (any_in _ _).
Qed.

Lemma email_loop_nothing : forall (lines : list text) (acc : list item),
  (forall line, In line lines -> EmailReceiptParser.item_of_line line = Ok None) ->
  EmailReceiptParser.extract_loop acc lines = Ok acc.
Proof.
  induction lines as [|line lines IH]; intros acc H; simpl; [reflexivity|].
  rewrite (H line (or_introl eq_refl)). cbn [bind]. apply IH.
  intros l Hl. apply H. now right.
Qed.

Lemma first_pattern_amount_none : forall (rs : list regex) (t : text),
  (forall r, In r rs -> search r t = None) ->
  EmailReceiptParser.first_pattern_amount rs t = Ok 0%Q.
Proof.
  induction rs as [|r rs IH]; intros t H; cbn [EmailReceiptParser.first_pattern_amount];
    [reflexivity|].
  rewrite (H r (or_introl eq_refl)). apply IH. intros r' Hr'. apply H. now right.
Qed.

Lemma scan_no_point (now : datetime) (t : text) :
  free_of is_point t ->
  ReceiptProcessor.parse_receipt_text now t
  = Ok (ReceiptProcessor.Receipt (ReceiptProcessor._extract_store_name t)
          (date_spec now ReceiptProcessor.date_patterns (lower t)) [] 0 0 t).
Proof.
  intros Hf. unfold ReceiptProcessor.parse_receipt_text.
  rewrite extract_date_spec. cbn [bind].
  unfold ReceiptProcessor._extract_items.
  rewrite scan_loop_nothing.
  2:{ intros line Hl. apply scan_item_nothing;
        apply (search_must is_point); try reflexivity;
        apply (free_of_incl is_point line t); try exact Hf;
        intros c Hc; exact (stripped_lines_incl t line c Hl Hc). }
  cbn [bind]. unfold ReceiptProcessor._extract_totals, ReceiptProcessor.first_amount.
  pose proof (free_of_lower is_point t point_to_lower Hf) as Hfl.
  rewrite (search_must is_point ReceiptProcessor.total_pattern (lower t) eq_refl Hfl).
  rewrite (search_must is_point ReceiptProcessor.tax_pattern (lower t) eq_refl Hfl).
  reflexivity.
Qed.

Lemma email_no_point (t : text) (subject sender : option text) :
  free_of is_point t ->
  EmailReceiptParser._parse_receipt_from_body t subject sender
  = Ok (EmailReceiptParser.ReceiptData
          (EmailReceiptParser._identify_store t subject sender) [] 0 0
          (firstn 1000 t)).
Proof.
  intros Hf. unfold EmailReceiptParser._parse_receipt_from_body,
    EmailReceiptParser._extract_items_from_email.
  rewrite email_loop_nothing.
  2:{ intros line Hl. apply email_item_nothing;
        apply (search_must is_point); try reflexivity;
        apply (free_of_incl is_point (strip line) t); try exact Hf;
        intros c Hc; apply strip_incl in Hc;
        exact (split_on_incl newline t line c Hl Hc). }
  cbn [bind]. unfold EmailReceiptParser._extract_totals_from_email.
  pose proof (free_of_lower is_point t point_to_lower Hf) as Hfl.
  rewrite !first_pattern_amount_none.
  - reflexivity.
  - intros r Hr. apply (search_must is_point); [|exact Hfl].
    revert r Hr. apply Forall_forall.
    repeat (apply Forall_cons; [reflexivity|]). apply Forall_nil.
  - intros r Hr. apply (search_must is_point); [|exact Hfl].
    revert r Hr. apply Forall_forall.
    repeat (apply Forall_cons; [reflexivity|]). apply Forall_nil.
Qed.

(** X7.  Every item, total and tax pattern of both paths needs a decimal
    point.  A document that contains no [.] therefore yields, on the scan
    path and on the email path alike, a receipt with no items and a total
    and tax of 0, whatever else it says; neither path raises on it. *)
Theorem X7_no_decimal_point_no_amounts :
  forall (now : datetime) (t : text),
    free_of is_point t ->
    (exists d,
       ReceiptProcessor.parse_receipt_text now t
       = Ok (ReceiptProcessor.Receipt (ReceiptProcessor._extract_store_name t)
               d [] 0 0 t)) /\
    (forall subject sender,
       EmailReceiptParser._parse_receipt_from_body t subject sender
       = Ok (EmailReceiptParser.ReceiptData
               (EmailReceiptParser._identify_store t subject sender) [] 0 0
               (firstn 1000 t))).
Proof.
  intros now t Hf. split.
  - eexists. apply scan_no_point, Hf.
  - intros subject sender. apply email_no_point, Hf.
Qed.

(** The hypothesis of X7 on a receipt whose prices use a decimal comma. *)
Lemma X7_witness :
  free_of is_point (str "Walmart
2 x Milk 3,99
Total: 3,99") /\
  exists d,
    ReceiptProcessor.parse_receipt_text (DateTime 2024 5 1 12 0 0)
      (str "Walmart
2 x Milk 3,99
Total: 3,99")
    = Ok (ReceiptProcessor.Receipt (str "Walmart") d [] 0 0
            (str "Walmart
2 x Milk 3,99
Total: 3,99")).
Proof.
  split; [reflexivity|].
  exact (proj1 (X7_no_decimal_point_no_amounts (DateTime 2024 5 1 12 0 0)
                  (str "Walmart
2 x Milk 3,99
Total: 3,99") eq_refl)).
Defined.

Lemma try_patterns_none (now : datetime) : forall (ps : list regex) (t : text),
  (forall r, In r ps -> search r t = None) ->
  ReceiptProcessor.try_patterns now ps t = Ok now.
Proof.
  induction ps as [|r ps IH]; intros t H; cbn [ReceiptProcessor.try_patterns];
    [reflexivity|].
  rewrite (H r (or_introl eq_refl)). apply IH. intros r' Hr'. apply H. now right.
Qed.

Lemma extract_date_no_digit (now : datetime) (t : text) :
  free_of is_digit t -> ReceiptProcessor._extract_date now t = Ok now.
Proof.
  intros Hf. unfold ReceiptProcessor._extract_date. apply try_patterns_none.
  intros r Hr. apply (search_must is_digit).
  - revert r Hr. apply Forall_forall.
    repeat (apply Forall_cons; [reflexivity|]). apply Forall_nil.
  - apply free_of_lower; [exact digit_to_lower|exact Hf].
Qed.

End RequiredCharacters.

(** * Shapes of the extracted date and totals *)

Section ExtractedShapes.

Lemma strptime_midnight (ds : text) (f : string) (d : datetime) :
  Strptime.strptime ds f = Ok d -> midnight_date d = true.
Proof.
  unfold Strptime.strptime. intros H.
  destruct (Strptime.pattern false (str f)); [|discriminate].
  destruct (match_ _ ds); [|discriminate].
  destruct (negb _); [discriminate|].
  cbv zeta in H.
  match type of H with
  | match ?m with Some _ => _ | None => _ end = _ => destruct m
  end; [|discriminate].
  match type of H with
  | (if ?b then _ else _) = _ => destruct b eqn:Hv
  end; [|discriminate].
  injection H as <-. unfold midnight_date. cbn [year month day hour minute second].
  rewrite Hv. reflexivity.
Qed.

Lemma first_parse_midnight : forall (fmts : list string) (ds : text) (d : datetime),
  first_parse fmts ds = Some d -> midnight_date d = true.
Proof.
  induction fmts as [|f fmts IH]; intros ds d H; cbn [first_parse] in H;
    [discriminate|].
  destruct (Strptime.strptime ds f) as [d'|e] eqn:Hp; cbn [ok_value] in H.
  - injection H as <-. exact (strptime_midnight ds f d' Hp).
  - exact (IH ds d H).
Qed.

Lemma date_spec_shape (now : datetime) : forall (ps : list regex) (t : text),
  date_spec now ps t = now \/ midnight_date (date_spec now ps t) = true.
Proof.
  induction ps as [|r ps IH]; intros t; cbn [date_spec]; [now left|].
  destruct (pattern_date r t) as [d|] eqn:Hd; [|apply IH].
  right. unfold pattern_date in Hd.
  destruct (search r t) as [m|]; [|discriminate].
  destruct (group m 1) as [ds|]; [|discriminate].
  exact (first_parse_midnight _ ds d Hd).
Qed.

(** X8.  The date extractor returns either the current time it was given
    or a valid calendar date at midnight (year 1 to 9999, month 1 to 12, a
    day that exists in that month); it never returns a time of day read
    from the text.  Every date pattern needs a digit, so on a text without
    digits the result is the current time. *)
Theorem X8_date_is_now_or_calendar_date :
  forall (now : datetime) (t : text),
    exists d,
      ReceiptProcessor._extract_date now t = Ok d /\
      (d = now \/ midnight_date d = true) /\
      (free_of is_digit t -> d = now).
Proof.
  intros now t. exists (date_spec now ReceiptProcessor.date_patterns (lower t)).
  split; [apply extract_date_spec|]. split; [apply date_spec_shape|].
  intros Hf. pose proof (extract_date_no_digit now t Hf) as H.
  rewrite extract_date_spec in H. congruence.
Qed.

(** The hypothesis of X8's last part on a text without digits. *)
Lemma X8_witness :
  free_of is_digit (str "Thank you for shopping") /\
  ReceiptProcessor._extract_date (DateTime 2024 5 1 12 30 0)
    (str "Thank you for shopping")
  = Ok (DateTime 2024 5 1 12 30 0).
Proof.
  split; [reflexivity|].
  destruct (X8_date_is_now_or_calendar_date (DateTime 2024 5 1 12 30 0)
              (str "Thank you for shopping")) as (d & Hd & _ & Hn).
  rewrite Hd. f_equal. apply Hn. reflexivity.
Defined.

Lemma has_double_space_eq (a b : ascii) (s : text) :
  has_double_space (a :: b :: s)
  = (is_space a && is_space b) || has_double_space (b :: s).
Proof. reflexivity. Qed.

Lemma double_space_cons (c : ascii) (s : text) :
  has_double_space s = true -> has_double_space (c :: s) = true.
Proof.
  destruct s as [|a s]; [discriminate|]. intros H.
  rewrite has_double_space_eq, H. apply orb_true_r.
Qed.

Lemma double_space_mid (u : text) : forall x y : text,
  forallb is_space u = true -> 2 <= length u ->
  has_double_space (x ++ u ++ y) = true.
Proof.
  induction x as [|c x IH]; intros y Hu Hl.
  - destruct u as [|a [|b u]]; simpl in Hl; try lia.
    cbn [forallb] in Hu. apply andb_true_iff in Hu. destruct Hu as [Ha Hu].
    apply andb_true_iff in Hu. destruct Hu as [Hb _].
    cbn [app]. rewrite has_double_space_eq, Ha, Hb. reflexivity.
  - cbn [app]. apply double_space_cons, IH; assumption.
Qed.

Lemma pattern2_gap (s : text) (m : rmatch) :
  search EmailReceiptParser.pattern2 s = Some m -> has_double_space s = true.
Proof.
  intros H. apply search_at_some in H. destruct H as (u & v & e & -> & He & _).
  apply matches_sound in He. destruct He as (w & new & [Ha _] & Hl & _).
  cbn [after] in Ha. subst v. simpl in Hl.
  destruct Hl as (g & r & -> & _ & (ws & r2 & -> & (Hws & Hlen & _) & _)).
  rewrite <- !app_assoc. rewrite (app_assoc u g).
  apply double_space_mid; assumption.
Qed.

(** X9.  On the email path an ASCII line that the [N x ...] pattern does
    not match becomes an item only if it contains two whitespace
    characters in a row: a name and a trailing price separated by a single
    space are not an item. *)
Theorem X9_email_price_needs_gap :
  forall line : text,
    ascii_only line ->
    has_double_space (strip line) = false ->
    quantity_match Email line = None ->
    line_item Email line = Ok None.
Proof.
  intros line _ Hd Hq. cbn [quantity_match] in Hq. cbn [line_item].
  apply email_item_nothing; [exact Hq|].
  destruct (search EmailReceiptParser.pattern2 (strip line)) as [m|] eqn:H2;
    [|reflexivity].
  apply pattern2_gap in H2. congruence.
Qed.

(** The hypotheses of X9 on a line with single spaces only. *)
Lemma X9_witness :
  ascii_only (str "Organic Bananas $1.99") /\
  has_double_space (strip (str "Organic Bananas $1.99")) = false /\
  quantity_match Email (str "Organic Bananas $1.99") = None /\
  line_item Email (str "Organic Bananas $1.99") = Ok None.
Proof.
  split; [reflexivity|]. split; [reflexivity|]. split; [reflexivity|].
  apply (X9_email_price_needs_gap (str "Organic Bananas $1.99")); reflexivity.
Defined.









End ExtractedShapes.

(** * Shapes of the lines and of the cleaned names *)

Section CleanedShapes.

Lemma drop_while_head (p : ascii -> bool) (s : text) (c : ascii) (r : text) :
  drop_while p s = c :: r -> p c = false.
Proof.
  induction s as [|a s IH]; cbn [drop_while]; [discriminate|].
  destruct (p a) eqn:Ha; [exact IH|]. intros H. injection H as -> _. exact Ha.
Qed.

Lemma drop_while_idem (p : ascii -> bool) (s : text) :
  drop_while p (drop_while p s) = drop_while p s.
Proof.
  destruct (drop_while p s) as [|c r] eqn:H; [reflexivity|].
  cbn [drop_while]. now rewrite (drop_while_head p s c r H).
Qed.

Lemma strip_idem (s : text) : strip (strip s) = strip s.
Proof.
  unfold strip, lstrip, rstrip.
  set (u := drop_while is_space s).
  assert (Hv : drop_while is_space (rev (drop_while is_space (rev u)))
               = rev (drop_while is_space (rev u))).
  { destruct (rev (drop_while is_space (rev u))) as [|c v'] eqn:Hv; [reflexivity|].
    pose proof (proj1 (run_split is_space (rev u))) as Hs.
    apply (f_equal (@rev ascii)) in Hs.
    rewrite rev_involutive, rev_app_distr, Hv in Hs.
    cbn [drop_while].
    now rewrite (drop_while_head is_space s c _ Hs). }
  rewrite Hv, rev_involutive, drop_while_idem. reflexivity.
Qed.

Lemma split_on_no_sep (sep : ascii) : forall (s line : text),
  In line (split_on sep s) -> ~ In sep line.
Proof.
  induction s as [|a s IH]; intros line Hl Hc; cbn [split_on] in Hl.
  - destruct Hl as [<-|[]]. destruct Hc.
  - destruct (Ascii.eqb a sep) eqn:Ha.
    + destruct Hl as [<-|Hl]; [destruct Hc|]. exact (IH line Hl Hc).
    + apply Ascii.eqb_neq in Ha.
      destruct (split_on sep s) as [|l ls] eqn:Hsp.
      * destruct Hl as [<-|[]]. destruct Hc as [Hc|[]]. congruence.
      * destruct Hl as [<-|Hl].
        -- destruct Hc as [Hc|Hc]; [congruence|].
           exact (IH l (or_introl eq_refl) Hc).
        -- exact (IH line (or_intror Hl) Hc).
Qed.

Lemma stripped_lines_shape (t line : text) :
  In line (ReceiptProcessor.stripped_lines t) ->
  line <> [] /\ strip line = line /\ ~ In newline line.
Proof.
  unfold ReceiptProcessor.stripped_lines. intros Hl.
  apply in_map_iff in Hl. destruct Hl as (raw & <- & Hraw).
  apply filter_In in Hraw. destruct Hraw as [Hraw Hne].
  split; [|split].
  - intros E. rewrite E in Hne. discriminate.
  - apply strip_idem.
  - intros Hc. apply strip_incl in Hc. exact (split_on_no_sep newline t raw Hraw Hc).
Qed.

Lemma split_on_count (sep : ascii) (s : text) :
  length (split_on sep s) = S (length (filter (Ascii.eqb sep) s)).
Proof.
  induction s as [|a s IH]; [reflexivity|]. cbn [split_on filter].
  rewrite (Ascii.eqb_sym sep a).
  destruct (Ascii.eqb a sep).
  - cbn [length]. now rewrite IH.
  - destruct (split_on sep s) as [|l ls]; [discriminate|]. exact IH.
Qed.

(** X11.  The lines the scan path feeds to its item loop are never empty,
    carry no whitespace at either end and contain no line break; there are
    at most one more of them than the text has line breaks. *)
Theorem X11_scan_lines_are_trimmed :
  forall t : text,
    (forall line, In line (ReceiptProcessor.stripped_lines t) ->
       line <> [] /\ strip line = line /\ ~ In newline line) /\
    length (ReceiptProcessor.stripped_lines t)
    <= S (length (filter (Ascii.eqb newline) t)).
Proof.
  intros t. split; [intros line; apply stripped_lines_shape|].
  unfold ReceiptProcessor.stripped_lines.
  rewrite length_map, <- split_on_count. apply filter_length_le.
Qed.

(** The hypothesis of X11's first part on a text with blank and padded
    lines. *)
Lemma X11_witness :
  In (str "Milk  3.99")
     (ReceiptProcessor.stripped_lines (str "  Milk  3.99  

   
Eggs 2.50")) /\
  strip (str "Milk  3.99") = str "Milk  3.99".
Proof.
  assert (H : In (str "Milk  3.99")
                 (ReceiptProcessor.stripped_lines (str "  Milk  3.99  

   
Eggs 2.50"))) by (left; reflexivity).
  split; [exact H|].
  exact (proj1 (proj2 (proj1 (X11_scan_lines_are_trimmed _) _ H))).
Defined.

(** ** What a text's whitespace positions determine *)

Lemma spaces_drop_while : forall s s' : text,
  map is_space s = map is_space s' ->
  map is_space (drop_while is_space s) = map is_space (drop_while is_space s').
Proof.
  induction s as [|a s IH]; intros [|a' s'] H; try discriminate; [reflexivity|].
  cbn [map] in H. injection H as Ha Hs. cbn [drop_while]. rewrite <- Ha.
  destruct (is_space a) eqn:E; [now apply IH|].
  cbn [map]. rewrite E, <- Ha, Hs. reflexivity.
Qed.

Lemma spaces_strip (s s' : text) :
  map is_space s = map is_space s' ->
  map is_space (strip s) = map is_space (strip s').
Proof.
  intros H. unfold strip, rstrip, lstrip. rewrite !map_rev. f_equal.
  apply spaces_drop_while. rewrite !map_rev. f_equal.
  now apply spaces_drop_while.
Qed.

Lemma upper_space (c : ascii) : is_space (to_upper c) = is_space c.
Proof. destruct c as [[] [] [] [] [] [] [] []]; reflexivity. Qed.

Lemma spaces_title_from : forall (s : text) (b : bool),
  map is_space (title_from b s) = map is_space s.
Proof.
  induction s as [|c s IH]; intros b; [reflexivity|].
  cbn [title_from map]. rewrite IH.
  destruct b; [now rewrite lower_space|now rewrite upper_space].
Qed.

Lemma title_length (s : text) : length (title s) = length s.
Proof.
  unfold title. rewrite <- (length_map is_space (title_from false s)).
  now rewrite spaces_title_from, length_map.
Qed.

Lemma strip_length (s : text) : length (strip s) <= length s.
Proof.
  destruct (strip_split s) as (w1 & w3 & Hs & _).
  rewrite Hs at 2. rewrite !length_app. lia.
Qed.

(** Title-casing a trimmed text leaves it trimmed. *)
Lemma strip_title (x : text) : strip x = x -> strip (title x) = title x.
Proof.
  intros Hx.
  destruct (strip_split (title x)) as (w1 & w3 & Hs & _).
  assert (Hl : length (strip (title x)) = length (title x)).
  { rewrite <- (length_map is_space (strip (title x))).
    rewrite (spaces_strip (title x) x) by apply spaces_title_from.
    now rewrite length_map, Hx, title_length. }
  rewrite Hs in Hl at 2. rewrite !length_app in Hl.
  destruct w1; [|simpl in Hl; lia]. destruct w3; [|simpl in Hl; lia].
  rewrite Hs at 2. cbn [app]. now rewrite app_nil_r.
Qed.

Lemma forallb_incl (p : ascii -> bool) (s t : text) :
  (forall c, In c s -> In c t) -> forallb p t = true -> forallb p s = true.
Proof.
  rewrite !forallb_forall. intros Hin H c Hc. auto.
Qed.

Lemma forallb_title_from (p : ascii -> bool) :
  (forall c, p (to_upper c) = p c) -> (forall c, p (to_lower c) = p c) ->
  forall (s : text) (b : bool), forallb p (title_from b s) = forallb p s.
Proof.
  intros Hu Hl. induction s as [|c s IH]; intros b; [reflexivity|].
  cbn [title_from forallb]. rewrite IH. destruct b; [now rewrite Hl|now rewrite Hu].
Qed.

Lemma collapse_plain : forall (s : text) (b : bool),
  forallb plain (collapse_from b s) = true.
Proof.
  induction s as [|c s IH]; intros b; [reflexivity|]. cbn [collapse_from].
  destruct (is_space c) eqn:Hc.
  - destruct b; [apply IH|]. cbn [forallb]. rewrite IH. reflexivity.
  - cbn [forallb]. rewrite IH. unfold plain. now rewrite Hc.
Qed.

Lemma collapse_length : forall (s : text) (b : bool),
  length (collapse_from b s) <= length s.
Proof.
  induction s as [|c s IH]; intros b; [simpl; lia|]. cbn [collapse_from].
  pose proof (IH true). pose proof (IH false).
  destruct (is_space c); [destruct b|]; cbn [length]; lia.
Qed.

Lemma name_char_upper (c : ascii) : name_char (to_upper c) = name_char c.
Proof. destruct c as [[] [] [] [] [] [] [] []]; reflexivity. Qed.

Lemma name_char_lower (c : ascii) : name_char (to_lower c) = name_char c.
Proof. destruct c as [[] [] [] [] [] [] [] []]; reflexivity. Qed.

Lemma plain_upper (c : ascii) : plain (to_upper c) = plain c.
Proof. destruct c as [[] [] [] [] [] [] [] []]; reflexivity. Qed.

Lemma plain_lower (c : ascii) : plain (to_lower c) = plain c.
Proof. destruct c as [[] [] [] [] [] [] [] []]; reflexivity. Qed.

Lemma kept_plain_is_name_char (c : ascii) :
  keep_char c = true -> plain c = true -> name_char c = true.
Proof.
  unfold keep_char, plain, name_char.
  destruct (is_word c), (is_space c), (Ascii.eqb c " "), (Ascii.eqb c "-");
    simpl; congruence.
Qed.

Lemma scan_clean_eq (raw : text) :
  ReceiptProcessor._clean_item_name raw
  = title (strip (filter keep_char (collapse_ws raw))).
Proof.
  unfold ReceiptProcessor._clean_item_name. now rewrite sub_spaces, sub_special.
Qed.

(** X12.  An ASCII name cleaned on the scan path consists of word
    characters (letters, digits, underscore), plain spaces and hyphens
    only, has no space at either end, and is never longer than the raw
    name.  (Beyond ASCII Python's [title] can lengthen a name.) *)
Theorem X12_scan_name_alphabet :
  forall raw : text,
    ascii_only raw ->
    forallb name_char (ReceiptProcessor._clean_item_name raw) = true /\
    strip (ReceiptProcessor._clean_item_name raw)
    = ReceiptProcessor._clean_item_name raw /\
    length (ReceiptProcessor._clean_item_name raw) <= length raw.
Proof.
  intros raw _. rewrite scan_clean_eq. split; [|split].
  - unfold title.
    rewrite (forallb_title_from name_char name_char_upper name_char_lower).
    apply forallb_forall. intros c Hc. apply strip_incl in Hc.
    apply filter_In in Hc. destruct Hc as [Hc Hk].
    apply kept_plain_is_name_char; [exact Hk|].
    pose proof (collapse_plain raw false) as Hp.
    rewrite forallb_forall in Hp. now apply Hp.
  - apply strip_title, strip_idem.
  - rewrite title_length.
    pose proof (strip_length (filter keep_char (collapse_ws raw))).
    pose proof (filter_length_le keep_char (collapse_ws raw)).
    pose proof (collapse_length raw false). unfold collapse_ws in *. lia.
Qed.

(** The hypothesis of X12 on a raw name with punctuation and padding. *)
Lemma X12_witness :
  ascii_only (str "  organic   bananas (1.2kg)* ") /\
  ReceiptProcessor._clean_item_name (str "  organic   bananas (1.2kg)* ")
  = str "Organic Bananas 12Kg" /\
  forallb name_char (ReceiptProcessor._clean_item_name
                       (str "  organic   bananas (1.2kg)* ")) = true.
Proof.
  split; [reflexivity|]. split; [vm_compute; reflexivity|].
  exact (proj1 (X12_scan_name_alphabet (str "  organic   bananas (1.2kg)* ")
                  eq_refl)).
Defined.

(** ** The email path: single spacing *)

Lemma double_space_app_r (x y : text) :
  has_double_space y = true -> has_double_space (x ++ y) = true.
Proof.
  intros H. induction x as [|c x IH]; [exact H|].
  cbn [app]. now apply double_space_cons.
Qed.

Lemma double_space_app_l : forall x y : text,
  has_double_space x = true -> has_double_space (x ++ y) = true.
Proof.
  induction x as [|a x IH]; intros y H; [discriminate|].
  destruct x as [|b x]; [discriminate|].
  rewrite has_double_space_eq in H. cbn [app]. rewrite has_double_space_eq.
  apply orb_true_iff in H. destruct H as [H|H]; [now rewrite H|].
  specialize (IH y H). cbn [app] in IH. rewrite IH. apply orb_true_r.
Qed.

Lemma single_spaced_segment (x y z : text) :
  has_double_space (x ++ y ++ z) = false -> has_double_space y = false.
Proof.
  intros H. destruct (has_double_space y) eqn:Hy; [|reflexivity].
  rewrite <- H. symmetry. apply double_space_app_r, double_space_app_l, Hy.
Qed.

Lemma spaces_double : forall s s' : text,
  map is_space s = map is_space s' ->
  has_double_space s = has_double_space s'.
Proof.
  induction s as [|a s IH]; intros [|a' s'] H; try discriminate; [reflexivity|].
  destruct s as [|b s], s' as [|b' s']; try discriminate; [reflexivity|].
  rewrite !has_double_space_eq. cbn [map] in H. injection H as Ha Hb Hr.
  rewrite Ha, Hb. f_equal. apply IH. cbn [map]. now rewrite Hb, Hr.
Qed.

Lemma collapse_single : forall (s : text) (b : bool),
  has_double_space (collapse_from b s) = false /\
  (b = true -> forall c r, collapse_from b s = c :: r -> is_space c = false).
Proof.
  induction s as [|c s IH]; intros b.
  - split; [reflexivity|]. intros _ c r H. discriminate.
  - cbn [collapse_from]. destruct (is_space c) eqn:Hc.
    + destruct b.
      * apply IH.
      * split; [|discriminate].
        destruct (IH true) as [Hd Hh].
        destruct (collapse_from true s) as [|x r] eqn:Hx; [reflexivity|].
        rewrite has_double_space_eq, Hd, (Hh eq_refl x r eq_refl).
        now rewrite andb_false_r.
    + destruct (IH false) as [Hd _]. split.
      * destruct (collapse_from false s) as [|x r] eqn:Hx; [reflexivity|].
        now rewrite has_double_space_eq, Hc, Hd.
      * intros _ c' r H. injection H as <- _. exact Hc.
Qed.

Lemma leading_code_suffix (s : text) :
  exists pre, s = pre ++ strip_leading_code s.
Proof.
  unfold strip_leading_code. destruct s as [|c s]; [now exists []|].
  destruct (is_digit c); [|now exists []].
  exists (take_while is_digit (c :: s)
          ++ take_while is_space (drop_while is_digit (c :: s))).
  rewrite <- app_assoc.
  rewrite <- (proj1 (run_split is_space (drop_while is_digit (c :: s)))).
  apply run_split.
Qed.

Lemma cut_unit_prefix : forall s : text,
  exists rest, s = cut_unit_suffix s ++ rest.
Proof.
  induction s as [|c s IH].
  - exists []. cbn [cut_unit_suffix]. now destruct (is_unit (strip [])).
  - rewrite cut_unit_suffix_cons. destruct (is_unit (strip (c :: s))).
    + now exists (c :: s).
    + destruct IH as (rest & IH). exists rest. cbn [app]. now rewrite <- IH.
Qed.

Lemma email_clean_eq (raw : text) :
  EmailReceiptParser._clean_item_name raw
  = title (strip (cut_unit_suffix (strip_leading_code (collapse_ws raw)))).
Proof.
  unfold EmailReceiptParser._clean_item_name.
  now rewrite sub_spaces, sub_leading, sub_suffix.
Qed.

(** X13.  An ASCII name cleaned on the email path never contains two
    whitespace characters in a row, its only whitespace character is the
    plain space, it has no space at either end, and it is never longer
    than the raw name. *)
Theorem X13_email_name_spacing :
  forall raw : text,
    ascii_only raw ->
    has_double_space (EmailReceiptParser._clean_item_name raw) = false /\
    forallb plain (EmailReceiptParser._clean_item_name raw) = true /\
    strip (EmailReceiptParser._clean_item_name raw)
    = EmailReceiptParser._clean_item_name raw /\
    length (EmailReceiptParser._clean_item_name raw) <= length raw.
Proof.
  intros raw _. rewrite email_clean_eq.
  set (a := collapse_ws raw).
  destruct (leading_code_suffix a) as (pre & Ha).
  set (b := strip_leading_code a) in *.
  destruct (cut_unit_prefix b) as (rest & Hb).
  set (c := cut_unit_suffix b) in *.
  destruct (strip_split c) as (w1 & w3 & Hc & _).
  assert (Hin : forall x, In x (strip c) -> In x a).
  { intros x Hx. rewrite Ha, Hb. apply in_or_app. right.
    apply in_or_app. left. now apply strip_incl. }
  split; [|split; [|split]].
  - unfold title.
    rewrite (spaces_double _ (strip c)) by apply spaces_title_from.
    apply (single_spaced_segment w1 (strip c) w3). rewrite <- Hc.
    apply (single_spaced_segment [] c rest). cbn [app]. rewrite <- Hb.
    apply (single_spaced_segment pre b []). rewrite app_nil_r, <- Ha.
    apply (collapse_single raw false).
  - unfold title. rewrite (forallb_title_from plain plain_upper plain_lower).
    apply (forallb_incl plain (strip c) a Hin). apply collapse_plain.
  - apply strip_title, strip_idem.
  - rewrite title_length. pose proof (strip_length c) as H1.
    assert (H2 : length c <= length b).
    { apply (f_equal (@length ascii)) in Hb. rewrite length_app in Hb. lia. }
    assert (H3 : length b <= length a).
    { apply (f_equal (@length ascii)) in Ha. rewrite length_app in Ha. lia. }
    pose proof (collapse_length raw false) as H4. unfold a, collapse_ws in *. lia.
Qed.

(** The hypothesis of X13 on a raw name with a code, tabs and a unit. *)
Lemma X13_witness :
  ascii_only (str "0042  red	 seedless   grapes  LB ") /\
  EmailReceiptParser._clean_item_name (str "0042  red	 seedless   grapes  LB ")
  = str "Red Seedless Grapes" /\
  has_double_space (EmailReceiptParser._clean_item_name
                      (str "0042  red	 seedless   grapes  LB ")) = false.
Proof.
  split; [reflexivity|]. split; [vm_compute; reflexivity|].
  exact (proj1 (X13_email_name_spacing (str "0042  red	 seedless   grapes  LB ")
                  eq_refl)).
Defined.

End CleanedShapes.

(** * The decoded email as a whole, and the skipped lines *)

Section EmailOutcomes.

Lemma email_loop_raise : forall (lines : list text) (acc : list item) (e : exn),
  EmailReceiptParser.extract_loop acc lines = Raise e ->
  exists line, In line lines /\ EmailReceiptParser.item_of_line line = Raise e.
Proof.
  induction lines as [|line lines IH]; intros acc e H;
    cbn [EmailReceiptParser.extract_loop] in H; [discriminate|].
  destruct (EmailReceiptParser.item_of_line line) as [o|e'] eqn:Hl; cbn [bind] in H.
  - destruct (IH _ e H) as (l & Hin & Hr). exists l. split; [now right|exact Hr].
  - injection H as ->. exists line. split; [now left|exact Hl].
Qed.

Lemma email_loop_ok : forall (lines : list text) (acc : list item),
  (forall line, In line lines -> exists o, EmailReceiptParser.item_of_line line = Ok o) ->
  exists items, EmailReceiptParser.extract_loop acc lines = Ok items.
Proof.
  induction lines as [|line lines IH]; intros acc H;
    cbn [EmailReceiptParser.extract_loop]; [eauto|].
  destruct (H line (or_introl eq_refl)) as (o & ->). cbn [bind].
  apply IH. intros l Hl. apply H. now right.
Qed.

Lemma email_totals_ok (body : text) :
  EmailReceiptParser._extract_totals_from_email body
  = Ok (list_order_amount EmailReceiptParser.total_patterns (lower body),
        list_order_amount EmailReceiptParser.tax_patterns (lower body)).
Proof.
  unfold EmailReceiptParser._extract_totals_from_email.
  rewrite (first_pattern_amount_spec _ _ email_total_groups).
  rewrite (first_pattern_amount_spec _ _ email_tax_groups). reflexivity.
Qed.

Lemma email_line_without_x (line : text) :
  free_of is_x (strip line) ->
  exists o, EmailReceiptParser.item_of_line line = Ok o.
Proof.
  intros Hf.
  pose proof (search_must is_x EmailReceiptParser.pattern1 (strip line) eq_refl Hf)
    as H1.
  destruct (email_item_of_line_cases line) as [H|[H|H]].
  - eauto.
  - destruct H as (m & q & u0 & t & nm & Hm & _). congruence.
  - destruct H as (m & pr & nm & _ & _ & _ & _ & H). eauto.
Qed.

Lemma decoded_outcomes (date : datetime) (body : text) (subject sender : option text) :
  (exists r,
     EmailReceiptParser.parse_decoded_eml date body subject sender = Ok (r, date) /\
     EmailReceiptParser.store_name r
     = EmailReceiptParser._identify_store body subject sender /\
     line_items Email (split_on newline body) = Ok (EmailReceiptParser.items r) /\
     EmailReceiptParser.raw_text r = firstn 1000 body /\
     length (EmailReceiptParser.raw_text r) <= 1000) \/
  (EmailReceiptParser.parse_decoded_eml date body subject sender = Raise ValueError /\
   exists line, In line (split_on newline body) /\
                line_item Email line = Raise ZeroDivisionError).
Proof.
  unfold EmailReceiptParser.parse_decoded_eml,
    EmailReceiptParser._parse_receipt_from_body,
    EmailReceiptParser._extract_items_from_email.
  cbn [line_items line_item].
  destruct (EmailReceiptParser.extract_loop [] (split_on newline body))
    as [items|e] eqn:Hl; cbn [bind].
  - rewrite email_totals_ok. cbn [bind fst snd]. left. eexists.
    split; [reflexivity|].
    cbn [EmailReceiptParser.store_name EmailReceiptParser.items
         EmailReceiptParser.raw_text].
    split; [reflexivity|]. split; [reflexivity|]. split; [reflexivity|].
    apply firstn_le_length.
  - right. split; [reflexivity|].
    destruct (email_loop_total (split_on newline body) []) as [(its & H)|H];
      [congruence|].
    apply (email_loop_raise _ [] ZeroDivisionError H).
Qed.

(** X14.  Parsing a decoded email either succeeds, with the store name of
    the store identifier, the items of the item loop over the lines of the
    body, the date of the message and at most the first 1000 characters of
    the body as raw text; or it raises [ValueError], and then some line of
    the body makes the item loop divide by zero.  Only the [N x ...]
    pattern divides, so a body without the letter [x] or [X] always
    parses. *)
Theorem X14_decoded_email_outcomes :
  forall (date : datetime) (body : text) (subject sender : option text),
    ((exists r,
        EmailReceiptParser.parse_decoded_eml date body subject sender = Ok (r, date) /\
        EmailReceiptParser.store_name r
        = EmailReceiptParser._identify_store body subject sender /\
        line_items Email (split_on newline body) = Ok (EmailReceiptParser.items r) /\
        EmailReceiptParser.raw_text r = firstn 1000 body /\
        length (EmailReceiptParser.raw_text r) <= 1000) \/
     (EmailReceiptParser.parse_decoded_eml date body subject sender
      = Raise ValueError /\
      exists line, In line (split_on newline body) /\
                   line_item Email line = Raise ZeroDivisionError)) /\
    (free_of is_x body ->
     exists r,
       EmailReceiptParser.parse_decoded_eml date body subject sender = Ok (r, date)).
Proof.
  intros date body subject sender. split; [apply decoded_outcomes|].
  intros Hf.
  destruct (decoded_outcomes date body subject sender)
    as [(r & H & _)|(_ & line & Hin & Hr)]; [eauto|].
  exfalso. cbn [line_item] in Hr.
  destruct (email_line_without_x line) as (o & Ho); [|congruence].
  apply (free_of_incl is_x (strip line) body); [|exact Hf].
  intros c Hc. apply strip_incl in Hc.
  exact (split_on_incl newline body line c Hin Hc).
Qed.

(** The hypothesis of X14's last part on a body without the letter x. *)
Lemma X14_witness :
  free_of is_x (str "Order from Target
Milk   3.99
Total: 3.99") /\
  exists r,
    EmailReceiptParser.parse_decoded_eml (DateTime 2024 5 1 12 30 0)
      (str "Order from Target
Milk   3.99
Total: 3.99") None None
    = Ok (r, DateTime 2024 5 1 12 30 0).
Proof.
  split; [reflexivity|].
  apply (proj2 (X14_decoded_email_outcomes (DateTime 2024 5 1 12 30 0)
                  (str "Order from Target
Milk   3.99
Total: 3.99") None None)).
  reflexivity.
Defined.

(** ** Skipped lines *)

Lemma contains_iff (w : text) : forall s : text,
  contains w s = true <-> exists pre post, s = pre ++ w ++ post.
Proof.
  induction s as [|c s IH]; cbn [contains].
  - rewrite orb_false_r, starts_with_iff. split.
    + intros (rest & H). exists [], rest. exact H.
    + intros (pre & post & H). destruct pre; [now exists post|discriminate].
  - rewrite orb_true_iff, starts_with_iff, IH. split.
    + intros [(rest & H)|(pre & post & H)].
      * exists [], rest. exact H.
      * exists (c :: pre), post. cbn [app]. now rewrite H.
    + intros (pre & post & H). destruct pre as [|a pre].
      * left. now exists post.
      * right. cbn [app] in H. injection H as _ H. now exists pre, post.
Qed.

Lemma contains_rev (w s : text) :
  contains w s = true -> contains (rev w) (rev s) = true.
Proof.
  rewrite !contains_iff. intros (pre & post & ->).
  exists (rev post), (rev pre). now rewrite !rev_app_distr, app_assoc.
Qed.

Lemma contains_lstrip (a : ascii) (w : text) : forall s : text,
  is_space a = false ->
  contains (a :: w) s = true ->
  contains (a :: w) (drop_while is_space s) = true.
Proof.
  intros s Ha. induction s as [|c s IH]; intros H; [exact H|].
  cbn [drop_while]. destruct (is_space c) eqn:Hc; [|exact H].
  apply IH. cbn [contains starts_with] in H.
  destruct (Ascii.eqb a c) eqn:E; [|exact H].
  apply Ascii.eqb_eq in E. congruence.
Qed.

Lemma contains_strip (w s : text) :
  solid_ends w = true -> contains w s = true -> contains w (strip s) = true.
Proof.
  unfold solid_ends. intros Hw H.
  destruct w as [|a w']; [discriminate|].
  destruct (rev (a :: w')) as [|b r] eqn:Hr; [discriminate|].
  apply andb_true_iff in Hw. destruct Hw as [Ha Hb].
  apply negb_true_iff in Ha, Hb.
  unfold strip, rstrip, lstrip.
  apply (contains_lstrip a w' s Ha) in H.
  apply contains_rev in H. rewrite Hr in H.
  apply (contains_lstrip b r _ Hb) in H.
  apply contains_rev in H.
  now rewrite <- Hr, rev_involutive in H.
Qed.

Lemma lower_drop_while (s : text) :
  lower (drop_while is_space s) = drop_while is_space (lower s).
Proof.
  induction s as [|c s IH]; [reflexivity|].
  cbn [drop_while lower map]. rewrite lower_space.
  destruct (is_space c); [exact IH|reflexivity].
Qed.

Lemma lower_strip (s : text) : lower (strip s) = strip (lower s).
Proof.
  unfold strip, rstrip, lstrip, lower.
  rewrite map_rev. f_equal. fold (lower (drop_while is_space (rev (drop_while is_space s)))).
  rewrite lower_drop_while. f_equal. unfold lower. rewrite map_rev. f_equal.
  apply lower_drop_while.
Qed.

Lemma email_skip_words_solid :
  Forall (fun w => solid_ends (str w) = true) EmailReceiptParser.skip_words.
Proof. repeat (apply Forall_cons; [reflexivity|]). apply Forall_nil. Qed.

(** X15.  On both paths a line that contains one of the path's skip words
    anywhere, in any letter case and also inside a longer word, never
    becomes an item, whatever prices it carries; on the email path this
    holds although the line is trimmed first. *)
Theorem X15_skip_words_suppress_items :
  forall (p : source_path) (line : text) (w : string),
    In w (path_skip_words p) ->
    contains (str w) (lower line) = true ->
    line_item p line = Ok None.
Proof.
  intros p line w.
  intros Hw Hc. destruct p; cbn [path_skip_words line_item] in *.
  - unfold ReceiptProcessor.item_of_line.
    replace (any_in ReceiptProcessor.skip_words line) with true; [reflexivity|].
    symmetry. apply existsb_exists. exists w. auto.
  - unfold EmailReceiptParser.item_of_line.
    destruct (is_nil _ || _); [reflexivity|].
    replace (any_in EmailReceiptParser.skip_words (strip line)) with true;
      [reflexivity|].
    symmetry. apply existsb_exists. exists w. split; [exact Hw|].
    rewrite lower_strip. apply contains_strip; [|exact Hc].
    pose proof email_skip_words_solid as HF. rewrite Forall_forall in HF.
    now apply HF.
Qed.

(** The hypotheses of X15 on a product whose name contains [tax]. *)
Lemma X15_witness :
  In "tax" (path_skip_words Scan) /\
  contains (str "tax") (lower (str "TAXI SNACK MIX 4.99")) = true /\
  line_item Scan (str "TAXI SNACK MIX 4.99") = Ok None.
Proof.
  assert (H1 : In "tax" (path_skip_words Scan))
    by (right; right; left; reflexivity).
  assert (H2 : contains (str "tax") (lower (str "TAXI SNACK MIX 4.99")) = true)
    by reflexivity.
  split; [exact H1|]. split; [exact H2|].
  exact (X15_skip_words_suppress_items Scan _ "tax" H1 H2).
Defined.

End EmailOutcomes.

(** * Patterns without anchors match by substring *)

Section Substrings.

(** Every text of the language of an anchor-free pattern is matched, from
    any position at which it stands. *)
Lemma matches_complete (r : regex) :
  anchor_free r = true ->
  forall (w b x : text) (c : list (nat * text)),
    lang r w ->
    exists c', In (MState (rev w ++ b) x c') (matches r (MState b (w ++ x) c)).
Proof.
  induction r as [|p|r1 IH1 r2 IH2|r1 IH1 r2 IH2|g lo hi p|k r IH| | |];
    intros Haf w b x c Hl; cbn [anchor_free] in Haf; try discriminate;
    cbn [lang] in Hl.
  - subst w. exists c. now left.
  - destruct Hl as (a & -> & Hp). exists c. cbn [matches after app].
    rewrite Hp. now left.
  - apply andb_true_iff in Haf. destruct Haf as [Ha1 Ha2].
    destruct Hl as (u & v & -> & Hu & Hv).
    rewrite <- app_assoc.
    destruct (IH1 Ha1 u b (v ++ x) c Hu) as (c1 & H1).
    destruct (IH2 Ha2 v (rev u ++ b) x c1 Hv) as (c2 & H2).
    exists c2. rewrite matches_seq. apply in_flat_map.
    eexists. split; [exact H1|]. now rewrite rev_app_distr, <- app_assoc.
  - apply andb_true_iff in Haf. destruct Haf as [Ha1 Ha2].
    rewrite matches_alt. destruct Hl as [Hl|Hl].
    + destruct (IH1 Ha1 w b x c Hl) as (c' & H). exists c'.
      apply in_or_app. now left.
    + destruct (IH2 Ha2 w b x c Hl) as (c' & H). exists c'.
      apply in_or_app. now right.
  - destruct Hl as (Hall & Hlo & Hhi). exists c. cbn [matches after].
    rewrite <- (advance_app w b x c). apply in_map_iff.
    exists (length w). split; [reflexivity|].
    assert (Hin : In (length w) (counts lo hi (run_length p (w ++ x)))).
    { apply in_counts. split; [exact Hlo|]. split; [|exact Hhi].
      clear - Hall. induction w as [|a w IH]; cbn [app run_length length]; [lia|].
      cbn [forallb] in Hall. apply andb_true_iff in Hall.
      destruct Hall as [Ha Hw]. rewrite Ha. specialize (IH Hw). lia. }
    destruct g; [now apply in_rev in Hin|exact Hin].
  - destruct (IH Haf w b x c Hl) as (c' & H).
    rewrite matches_grp. eexists.
    apply in_map_iff. eexists. split; [|exact H]. reflexivity.
Qed.

(** [re.search] with an anchor-free pattern succeeds exactly when some
    substring of the text is in the pattern's language. *)
Lemma search_occurs (r : regex) (t : text) :
  anchor_free r = true ->
  pattern_matches r t = true <-> occurs r t.
Proof.
  intros Haf. unfold pattern_matches, occurs. split.
  - destruct (search r t) as [m|] eqn:Hs; [intros _|discriminate].
    apply search_at_some in Hs. destruct Hs as (u & v & e & -> & He & _).
    apply matches_sound in He. destruct He as (w & new & [Ha _] & Hl & _).
    cbn [after] in Ha. subst v. now exists u, w, (after e).
  - intros (pre & w & post & -> & Hl).
    destruct (search r (pre ++ w ++ post)) as [m|] eqn:Hs; [reflexivity|].
    unfold search in Hs.
    pose proof (proj1 (search_at_none r _ []) Hs pre (w ++ post) eq_refl) as Hn.
    destruct (matches_complete r Haf w (rev pre ++ []) post [] Hl) as (c' & H).
    rewrite Hn in H. destruct H.
Qed.

Lemma lang_literal (w : text) : forall u : text,
  lang (seq_of (map chr w)) u <-> u = w.
Proof.
  induction w as [|a w IH]; intros u.
  - simpl. tauto.
  - change (seq_of (map chr (a :: w))) with (Seq (chr a) (seq_of (map chr w))).
    cbn [lang chr]. split.
    + intros (x & y & -> & (c & -> & Hc) & Hy).
      apply Ascii.eqb_eq in Hc. subst c. apply IH in Hy. now subst y.
    + intros ->. exists [a], w. split; [reflexivity|]. split.
      * exists a. split; [reflexivity|apply Ascii.eqb_refl].
      * now apply IH.
Qed.

Lemma anchor_free_literal (w : text) : anchor_free (seq_of (map chr w)) = true.
Proof. induction w as [|a w IH]; [reflexivity|exact IH]. Qed.

Lemma literal_by_substring (k : string) (t : text) :
  pattern_matches (lit k) t = true <-> contains (str k) t = true.
Proof.
  unfold lit. rewrite (search_occurs _ t (anchor_free_literal (str k))).
  rewrite contains_iff. unfold occurs. split.
  - intros (pre & w & post & -> & Hl). apply lang_literal in Hl. subst w.
    now exists pre, post.
  - intros (pre & post & ->). exists pre, (str k), post.
    split; [reflexivity|]. now apply lang_literal.
Qed.

Lemma either_by_substring (k1 k2 : string) (t : text) :
  pattern_matches (Alt (lit k1) (lit k2)) t = true <->
  contains (str k1) t = true \/ contains (str k2) t = true.
Proof.
  rewrite <- !literal_by_substring. unfold lit.
  rewrite !search_occurs;
    try (cbn [anchor_free]; rewrite !anchor_free_literal; reflexivity).
  unfold occurs. cbn [lang]. split.
  - intros (pre & w & post & -> & [H|H]); [left|right]; now exists pre, w, post.
  - intros [(pre & w & post & -> & H)|(pre & w & post & -> & H)];
      exists pre, w, post; auto.
Qed.

Lemma spaced_by_substring (k1 k2 : string) (t : text) :
  pattern_matches (seq_of [lit k1; star is_space; lit k2]) t = true <->
  spaced k1 k2 t.
Proof.
  change (seq_of [lit k1; star is_space; lit k2])
    with (Seq (lit k1) (Seq (star is_space) (Seq (lit k2) Eps))).
  unfold lit, spaced.
  rewrite search_occurs
    by (cbn [anchor_free star]; rewrite !anchor_free_literal; reflexivity).
  unfold occurs. cbn [lang star]. split.
  - intros (pre & w & post & -> & (u & v & -> & Hu & (ws & v2 & -> & (Hws & _) &
            (y & z & -> & Hy & ->)))).
    apply lang_literal in Hu, Hy. subst u y. exists ws. split; [exact Hws|].
    apply contains_iff. exists pre, post. now rewrite app_nil_r.
  - intros (ws & Hws & Hc). apply contains_iff in Hc.
    destruct Hc as (pre & post & ->).
    exists pre, (str k1 ++ ws ++ str k2), post. split; [reflexivity|].
    exists (str k1), (ws ++ str k2). split; [reflexivity|].
    split; [now apply lang_literal|].
    exists ws, (str k2). split; [reflexivity|].
    split; [split; [exact Hws|split; [lia|exact I]]|].
    exists (str k2), []. split; [now rewrite app_nil_r|].
    split; [now apply lang_literal|reflexivity].
Qed.

Lemma scan_stores_by_substring :
  Forall (fun e => forall t, pattern_matches (snd e) t = true <-> mentions (fst e) t)
         ReceiptProcessor.store_patterns.
Proof.
  repeat (apply Forall_cons;
          [intros t;
           first [ exact (literal_by_substring _ t)
                 | exact (either_by_substring _ _ t)
                 | exact (spaced_by_substring _ _ t) ]|]).
  apply Forall_nil.
Qed.

Lemma email_stores_by_substring :
  Forall (fun e => forall t, pattern_matches (snd e) t = true <-> mentions (fst e) t)
         EmailReceiptParser.store_patterns.
Proof.
  repeat (apply Forall_cons;
          [intros t;
           first [ exact (literal_by_substring _ t)
                 | exact (either_by_substring _ _ t)
                 | exact (spaced_by_substring _ _ t) ]|]).
  apply Forall_nil.
Qed.

(** The store loop returns the title of the first entry whose pattern
    matches, after only entries whose pattern does not. *)
Lemma first_store_split : forall (ps : list (string * regex)) (t : text),
  (ReceiptProcessor.first_store ps t = str "Unknown Store" /\
   forall e, In e ps -> pattern_matches (snd e) t = false) \/
  (exists l1 e l2,
     ps = l1 ++ e :: l2 /\
     ReceiptProcessor.first_store ps t = title (str (fst e)) /\
     pattern_matches (snd e) t = true /\
     forall e', In e' l1 -> pattern_matches (snd e') t = false).
Proof.
  induction ps as [|[k r] ps IH]; intros t.
  - left. split; [reflexivity|]. intros e [].
  - cbn [ReceiptProcessor.first_store].
    destruct (search r t) as [m|] eqn:Hs.
    + right. exists [], (k, r), ps. split; [reflexivity|].
      split; [reflexivity|]. split.
      * unfold pattern_matches. cbn [snd]. now rewrite Hs.
      * intros e' [].
    + assert (Hr : pattern_matches (snd (k, r)) t = false)
        by (unfold pattern_matches; cbn [snd]; now rewrite Hs).
      destruct (IH t) as [[Hu Hall]|(l1 & e & l2 & -> & Hf & He & Hl1)].
      * left. split; [exact Hu|]. intros e [<-|He]; [exact Hr|now apply Hall].
      * right. exists ((k, r) :: l1), e, l2. split; [reflexivity|].
        split; [exact Hf|]. split; [exact He|].
        intros e' [<-|He']; [exact Hr|now apply Hl1].
Qed.

Lemma stores_by_mention (ps : list (string * regex)) (t : text) :
  Forall (fun e => forall t, pattern_matches (snd e) t = true <-> mentions (fst e) t)
         ps ->
  (ReceiptProcessor.first_store ps t = str "Unknown Store" /\
   forall e, In e ps -> ~ mentions (fst e) t) \/
  (exists l1 e l2,
     ps = l1 ++ e :: l2 /\
     ReceiptProcessor.first_store ps t = title (str (fst e)) /\
     mentions (fst e) t /\
     forall e', In e' l1 -> ~ mentions (fst e') t).
Proof.
  intros HF. rewrite Forall_forall in HF.
  destruct (first_store_split ps t) as [[Hu Hall]|(l1 & e & l2 & Hps & Hf & He & Hl1)].
  - left. split; [exact Hu|]. intros e He Hm.
    apply (HF e He t) in Hm. rewrite (Hall e He) in Hm. discriminate.
  - right. exists l1, e, l2. split; [exact Hps|]. split; [exact Hf|].
    assert (Hin : forall x, In x (l1 ++ e :: l2) -> In x ps) by (now rewrite Hps).
    split.
    + apply (HF e); [|exact He]. apply Hin, in_or_app. right. now left.
    + intros e' He' Hm. apply (HF e') in Hm.
      * rewrite (Hl1 e' He') in Hm. discriminate.
      * apply Hin, in_or_app. now left.
Qed.










(** X16.  Both store identifiers can be read without patterns, on ASCII
    text.  A store key is found in the lower-cased text when the key is a
    substring of it; for [walmart] the spelling [wal-mart] counts too, and
    for [whole foods] and [trader joe] the two words may be separated by
    any run of ASCII whitespace, or by none.  The identifier returns the
    title-cased first key, in table order, that is found this way, and
    [Unknown Store] when none is. *)
Theorem X16_stores_by_substring :
  forall (t body : text) (subject sender : option text),
    ascii_only t -> ascii_only body ->
    ascii_header subject -> ascii_header sender ->
    let combined :=
      lower (EmailReceiptParser.fmt_header subject ++ str " " ++
             EmailReceiptParser.fmt_header sender ++ str " " ++ body) in
    ((ReceiptProcessor._extract_store_name t = str "Unknown Store" /\
      forall e, In e ReceiptProcessor.store_patterns -> ~ mentions (fst e) (lower t)) \/
     (exists l1 e l2,
        ReceiptProcessor.store_patterns = l1 ++ e :: l2 /\
        ReceiptProcessor._extract_store_name t = title (str (fst e)) /\
        mentions (fst e) (lower t) /\
        forall e', In e' l1 -> ~ mentions (fst e') (lower t))) /\
    ((EmailReceiptParser._identify_store body subject sender = str "Unknown Store" /\
      forall e, In e EmailReceiptParser.store_patterns -> ~ mentions (fst e) combined) \/
     (exists l1 e l2,
        EmailReceiptParser.store_patterns = l1 ++ e :: l2 /\
        EmailReceiptParser._identify_store body subject sender = title (str (fst e)) /\
        mentions (fst e) combined /\
        forall e', In e' l1 -> ~ mentions (fst e') combined)).
Proof.
  intros t body subject sender _ _ _ _ combined. split.
  - exact (stores_by_mention _ (lower t) scan_stores_by_substring).
  - exact (stores_by_mention _ combined email_stores_by_substring).
Qed.

(** The hypotheses of X16 on a scan text with a tab inside the store name
    and an email whose sender names the store. *)
Lemma X16_witness :
  ascii_only (str "WHOLE	FOODS MARKET") /\ ascii_only (str "Order 17") /\
  ascii_header None /\ ascii_header (Some (str "orders@target.com")) /\
  ((ReceiptProcessor._extract_store_name (str "WHOLE	FOODS MARKET")
    = str "Unknown Store" /\
    forall e, In e ReceiptProcessor.store_patterns ->
              ~ mentions (fst e) (lower (str "WHOLE	FOODS MARKET"))) \/
   (exists l1 e l2,
      ReceiptProcessor.store_patterns = l1 ++ e :: l2 /\
      ReceiptProcessor._extract_store_name (str "WHOLE	FOODS MARKET")
      = title (str (fst e)) /\
      mentions (fst e) (lower (str "WHOLE	FOODS MARKET")) /\
      forall e', In e' l1 -> ~ mentions (fst e') (lower (str "WHOLE	FOODS MARKET")))).
Proof.
  split; [reflexivity|]. split; [reflexivity|]. split; [exact I|].
  split; [reflexivity|].
  exact (proj1 (X16_stores_by_substring (str "WHOLE	FOODS MARKET") (str "Order 17")
                  None (Some (str "orders@target.com"))
                  eq_refl eq_refl I eq_refl)).
Defined.

End Substrings.

(** * Trailing-price items *)

Section TrailingPrice.

Lemma closing_caps (s e : mstate) :
  In e (matches closing s) ->
  caps e = caps s /\ forallb is_space (after s) = true.
Proof.
  intros H. split; [|exact (closing_in e s H)].
  apply matches_sound in H. destruct H as (w & new & _ & _ & Hc & Hnew).
  destruct new as [|[k x] new]; [exact Hc|].
  exfalso. specialize (Hnew k x (or_introl eq_refl)). simpl in Hnew. tauto.
Qed.

(** The tail [(\d+\.\d{2})\s*$] of a trailing-price pattern: the group holds
    an amount and only whitespace follows it. *)
Lemma amount_tail (n : nat) (s e : mstate) :
  In e (matches (Seq (Grp n amount) closing) s) ->
  exists g ws,
    after s = g ++ ws /\ lang amount g /\ forallb is_space ws = true /\
    caps e = (n, g) :: caps s.
Proof.
  rewrite matches_seq. intros H. apply in_flat_map in H.
  destruct H as (s1 & H1 & H2). rewrite matches_grp in H1.
  apply in_map_iff in H1. destruct H1 as (s' & <- & Hs').
  apply matches_sound in Hs'. destruct Hs' as (g & new & Hmv & Hl & Hc & Hnew).
  assert (Hn : new = []).
  { destruct new as [|[k x] new]; [reflexivity|].
    exfalso. specialize (Hnew k x (or_introl eq_refl)). simpl in Hnew. tauto. }
  subst new. cbn [app] in Hc.
  apply closing_caps in H2. destruct H2 as [Hce Hsp].
  unfold set_cap in Hce, Hsp. cbn [caps after] in Hce, Hsp.
  rewrite (moved_consumed _ _ _ Hmv), Hc in Hce.
  exists g, (after s'). split; [exact (proj1 Hmv)|]. auto.
Qed.

Lemma scan_trailing_shape (line : text) (m : rmatch) :
  search ReceiptProcessor.price_pattern line = Some m ->
  exists pre g ws,
    line = pre ++ g ++ ws /\ lang amount g /\ forallb is_space ws = true /\
    group m 1 = Some g.
Proof.
  intros H. apply search_at_some in H. destruct H as (u & v & e & -> & He & ->).
  change ReceiptProcessor.price_pattern
    with (Seq (opt (chr "$"))
            (Seq (star is_space) (Seq (Grp 1 amount) closing))) in He.
  rewrite matches_seq in He. apply in_flat_map in He.
  destruct He as (s1 & H1 & He).
  rewrite matches_seq in He. apply in_flat_map in He.
  destruct He as (s2 & H2 & He).
  apply matches_sound in H1. destruct H1 as (w1 & _ & [M1 _] & _).
  apply matches_sound in H2. destruct H2 as (w2 & _ & [M2 _] & _).
  apply amount_tail in He. destruct He as (g & ws & Ha & Hl & Hws & Hc).
  cbn [after] in M1. rewrite M2, Ha in M1.
  exists (u ++ w1 ++ w2), g, ws. split.
  - rewrite M1. now rewrite <- !app_assoc.
  - split; [exact Hl|]. split; [exact Hws|].
    unfold group, mk_match. cbn [m_caps]. rewrite Hc. reflexivity.
Qed.

Lemma email_trailing_shape (line : text) (m : rmatch) :
  search EmailReceiptParser.pattern2 line = Some m ->
  exists pre g ws,
    line = pre ++ g ++ ws /\ lang amount g /\ forallb is_space ws = true /\
    group m 2 = Some g.
Proof.
  intros H. apply search_at_some in H. destruct H as (u & v & e & -> & He & ->).
  change EmailReceiptParser.pattern2
    with (Seq (Grp 1 (plus_lazy dot))
            (Seq (Rep true 2 None is_space)
               (Seq (opt (chr "$"))
                  (Seq (star is_space) (Seq (Grp 2 amount) closing))))) in He.
  rewrite matches_seq in He. apply in_flat_map in He.
  destruct He as (s1 & H1 & He).
  rewrite matches_seq in He. apply in_flat_map in He.
  destruct He as (s2 & H2 & He).
  rewrite matches_seq in He. apply in_flat_map in He.
  destruct He as (s3 & H3 & He).
  rewrite matches_seq in He. apply in_flat_map in He.
  destruct He as (s4 & H4 & He).
  apply matches_sound in H1. destruct H1 as (w1 & _ & [M1 _] & _).
  apply matches_sound in H2. destruct H2 as (w2 & _ & [M2 _] & _).
  apply matches_sound in H3. destruct H3 as (w3 & _ & [M3 _] & _).
  apply matches_sound in H4. destruct H4 as (w4 & _ & [M4 _] & _).
  apply amount_tail in He. destruct He as (g & ws & Ha & Hl & Hws & Hc).
  cbn [after] in M1. rewrite M2, M3, M4, Ha in M1.
  exists (u ++ w1 ++ w2 ++ w3 ++ w4), g, ws. split.
  - rewrite M1. now rewrite <- !app_assoc.
  - split; [exact Hl|]. split; [exact Hws|].
    unfold group, mk_match. cbn [m_caps]. rewrite Hc. reflexivity.
Qed.

(** X17.  An item that does not come from an explicit-quantity pattern is
    a trailing-price item: the line (trimmed, on the email path) ends with an
    amount [digits.dd] followed by whitespace only, the item's unit price
    and total price are both that amount, and its quantity is 1.  A price
    followed by any other character, such as a tax-code letter, is
    therefore never picked up. *)
Theorem X17_trailing_price_ends_line :
  forall (p : source_path) (line : text) (it : item),
    line_item p line = Ok (Some it) ->
    quantity_match p line = None ->
    exists pre g ws,
      searched_line p line = pre ++ g ++ ws /\
      lang amount g /\ forallb is_space ws = true /\
      quantity it = 1%Q /\ unit_price it = amount_value g /\
      total_price it = amount_value g.
Proof.
  intros p line it.
  intros H Hq. destruct p; cbn [line_item quantity_match searched_line] in *.
  - unfold ReceiptProcessor.item_of_line in H.
    destruct (any_in _ _); [discriminate|]. rewrite Hq in H.
    destruct (search ReceiptProcessor.price_pattern line) as [m|] eqn:Hp;
      [|discriminate].
    destruct (scan_trailing_shape line m Hp) as (pre & g & ws & Hl & Hg & Hws & Hm).
    unfold float_group in H. rewrite Hm, (float_of_amount_value g Hg) in H.
    cbn [bind] in H. destruct (negb _ && _ && _); [|discriminate].
    apply Ok_Some_inj in H. subst it. exists pre, g, ws.
    cbn [quantity unit_price total_price]. auto 7.
  - unfold EmailReceiptParser.item_of_line in H.
    destruct (is_nil _ || _); [discriminate|].
    destruct (any_in _ _); [discriminate|]. rewrite Hq in H.
    destruct (search EmailReceiptParser.pattern2 (strip line)) as [m|] eqn:Hp;
      [|discriminate].
    destruct (email_trailing_shape _ m Hp) as (pre & g & ws & Hl & Hg & Hws & Hm).
    bound_group Hp 1 t1 Hg1 L1.
    unfold float_group, group_text in H.
    rewrite Hg1, Hm, (float_of_amount_value g Hg) in H.
    cbn [bind] in H. destruct (_ && _ && _); [|discriminate].
    apply Ok_Some_inj in H. subst it. exists pre, g, ws.
    cbn [quantity unit_price total_price]. auto 7.
Qed.

(** The hypotheses of X17 on a scan line. *)
Lemma X17_witness :
  line_item Scan (str "BANANAS 1.29") = Ok (Some (Item (str "Bananas") 1 1.29 1.29)) /\
  quantity_match Scan (str "BANANAS 1.29") = None /\
  exists pre g ws,
    str "BANANAS 1.29" = pre ++ g ++ ws /\
    lang amount g /\ forallb is_space ws = true /\
    1%Q = 1%Q /\ 1.29%Q = amount_value g /\ 1.29%Q = amount_value g.
Proof.
  assert (H1 : line_item Scan (str "BANANAS 1.29")
               = Ok (Some (Item (str "Bananas") 1 1.29 1.29)))
    by (vm_compute; reflexivity).
  assert (H2 : quantity_match Scan (str "BANANAS 1.29") = None) by reflexivity.
  split; [exact H1|]. split; [exact H2|].
  exact (X17_trailing_price_ends_line Scan _ _ H1 H2).
Defined.

End TrailingPrice.

(** * The explicit-quantity items, field by field *)

Section QuantityItems.


(** A scan line matched by the explicit-quantity pattern appends nothing or
    the item made of its two captures and their product. *)
Lemma scan_quantity_item (line : text) (m : rmatch) :
  search ReceiptProcessor.quantity_pattern line = Some m ->
  ReceiptProcessor.item_of_line line = Ok None \/
  exists t1 t2 nm,
    group m 1 = Some t1 /\ group m 2 = Some t2 /\
    forallb is_digit t1 = true /\ lang amount t2 /\
    ReceiptProcessor.item_of_line line
    = Ok (Some (Item nm (inject_Z (digits_value t1)) (amount_value t2)
                  (fmul (inject_Z (digits_value t1)) (amount_value t2)))).
Proof.
  intros Hq. unfold ReceiptProcessor.item_of_line.
  destruct (any_in _ _); [now left|]. rewrite Hq.
  bound_group Hq 1 t1 Hg1 L1. bound_group Hq 2 t2 Hg2 L2.
  unfold float_group.
  rewrite Hg1, Hg2, (float_of_digits t1 L1), (float_of_amount_value t2 L2).
  cbn [bind]. destruct (negb _ && _); [|now left].
  right. exists t1, t2. eexists.
  split; [reflexivity|]. split; [reflexivity|]. split; [exact (proj1 L1)|].
  split; [exact L2|reflexivity].
Qed.


End QuantityItems.

(** * The numeric fields of the emitted records *)

Section RecordFields.











End RecordFields.

(** * What the scan-path normaliser leaves in place *)

Section ScanNormaliser.

Lemma space_not_word (c : ascii) : is_space c = true -> is_word c = false.
Proof. destruct c as [[] [] [] [] [] [] [] []]; try reflexivity; discriminate. Qed.

Lemma word_upper (c : ascii) : is_word (to_upper c) = is_word c.
Proof. destruct c as [[] [] [] [] [] [] [] []]; reflexivity. Qed.

Lemma word_lower (c : ascii) : is_word (to_lower c) = is_word c.
Proof. destruct c as [[] [] [] [] [] [] [] []]; reflexivity. Qed.

Lemma words_of_spaces (w : text) :
  forallb is_space w = true -> filter is_word w = [].
Proof.
  induction w as [|c w IH]; [reflexivity|]. cbn [forallb filter]. intros H.
  apply andb_true_iff in H. destruct H as [Hc Hw].
  now rewrite (space_not_word c Hc), (IH Hw).
Qed.

Lemma words_collapse : forall (s : text) (b : bool),
  filter is_word (collapse_from b s) = filter is_word s.
Proof.
  induction s as [|c s IH]; intros b; [reflexivity|].
  cbn [collapse_from filter]. destruct (is_space c) eqn:Hc.
  - rewrite (space_not_word c Hc). destruct b; [apply IH|].
    cbn [filter]. replace (is_word " ") with false by reflexivity. apply IH.
  - cbn [filter]. now rewrite IH.
Qed.

Lemma words_kept (s : text) :
  filter is_word (filter keep_char s) = filter is_word s.
Proof.
  induction s as [|c s IH]; [reflexivity|]. cbn [filter].
  destruct (keep_char c) eqn:Hk.
  - cbn [filter]. now rewrite IH.
  - rewrite IH. unfold keep_char in Hk.
    destruct (is_word c); [discriminate|reflexivity].
Qed.

Lemma words_strip (s : text) : filter is_word (strip s) = filter is_word s.
Proof.
  destruct (strip_split s) as (w1 & w3 & Hs & _ & H1 & H3).
  rewrite Hs at 2. rewrite !filter_app.
  now rewrite (words_of_spaces w1 H1), (words_of_spaces w3 H3), app_nil_r.
Qed.

Lemma words_title_from : forall (s : text) (b : bool),
  lower (filter is_word (title_from b s)) = lower (filter is_word s).
Proof.
  induction s as [|c s IH]; intros b; [reflexivity|].
  cbn [title_from filter].
  destruct b.
  - rewrite word_lower. destruct (is_word c); [|apply IH].
    cbn [lower map]. fold (lower (filter is_word (title_from (is_alpha c) s))).
    fold (lower (filter is_word s)). now rewrite IH, to_lower_idem.
  - rewrite word_upper. destruct (is_word c); [|apply IH].
    cbn [lower map]. fold (lower (filter is_word (title_from (is_alpha c) s))).
    fold (lower (filter is_word s)). now rewrite IH, to_lower_upper.
Qed.

(** The scan-path normaliser removes no word character: letters, digits
    and underscores all survive, in order, up to letter case. *)
Lemma scan_clean_keeps_words (raw : text) :
  lower (filter is_word (ReceiptProcessor._clean_item_name raw))
  = lower (filter is_word raw).
Proof.
  rewrite scan_clean_eq. unfold title. rewrite words_title_from.
  rewrite words_strip, words_kept. unfold collapse_ws.
  now rewrite words_collapse.
Qed.

(** C5 (code defect).  The scan-path normaliser has no step that strips a
    leading code or a trailing unit: on ASCII names it removes no word
    character at all, so every digit and every unit letter of the raw name
    is still in the result.  On [12 Apples lb] it returns [12 Apples Lb]
    where the email-path normaliser returns [Apples]; the two are not the
    same function.  The email-path normaliser in turn cuts a unit off the
    end of a word: [Green Tea] becomes [Green T]. *)
Theorem C5_scan_normaliser_keeps_codes :
  (forall raw : text,
     ascii_only raw ->
     lower (filter is_word (ReceiptProcessor._clean_item_name raw))
     = lower (filter is_word raw)) /\
  ReceiptProcessor._clean_item_name (str "12 Apples lb") = str "12 Apples Lb" /\
  EmailReceiptParser._clean_item_name (str "12 Apples lb") = str "Apples" /\
  EmailReceiptParser._clean_item_name (str "Green Tea") = str "Green T".
Proof.
  split; [intros raw _; apply scan_clean_keeps_words|].
  split; [vm_compute; reflexivity|]. split; vm_compute; reflexivity.
Qed.

(** The hypothesis of the first part of C5 on [12 Apples lb]: the digits
    and the unit letters survive. *)
Lemma C5_witness :
  ascii_only (str "12 Apples lb") /\
  lower (filter is_word (ReceiptProcessor._clean_item_name (str "12 Apples lb")))
  = str "12appleslb".
Proof.
  split; [reflexivity|].
  exact (proj1 C5_scan_normaliser_keeps_codes (str "12 Apples lb") eq_refl).
Defined.

End ScanNormaliser.
